(** * Enhanced Windows Stock Price Monitor: a shallow embedding of [main.py]

    The development follows the class [WindowsStockMonitor]:

    - the attributes of [self] that the monitoring code reads and writes are
      the fields of the record [Monitor];
    - methods that run to completion in one thread ([fetch_price],
      [send_email_alert], [update_data], [update_chart]) are computations in
      a state-and-exception monad [M] over [Monitor];
    - the life cycle ([start_monitoring], [stop_monitoring],
      [monitoring_loop]) is a small-step transition system in which the
      Tk event-handler thread and every thread created by
      [threading.Thread(...).start()] are interleaved by a scheduler.

    Python floats are idealised as rationals [Q]: comparisons and the
    truthiness test [x != 0] on finite floats are exact, rounding of the
    arithmetic mean is not modelled, and nan and the infinities, which
    [float()] also returns, have no counterpart.  The transition system
    lets a thread take every step whatever the event thread does; where
    Tk makes a call from a thread wait for the main loop, the program has
    fewer executions than the system, so that what holds in all states
    of the system holds in all states of the program.  The outside world
    (quote provider, SMTP server, the clock behind [time.sleep],
    [float()] and [int()] on entry texts) is a parameter. *)

From Stdlib Require Import ZArith QArith Lia Ascii String.
From stdpp Require Import base option list strings gmap.

Local Open Scope Z_scope.

(** ** Python values *)

Definition Timestamp := Z.

Inductive exn :=
  | ValueError (msg : string)
  | OverflowError (msg : string)
  | OSError (msg : string)
  | ProviderError (msg : string)
  | SMTPException (msg : string).

(** [bool(x)] for a float. *)
Definition truthy (x : Q) : bool := negb (Qeq_bool x 0).

(** [bool(x)] for a value that is a float or [None]. *)
Definition opt_truthy (o : option Q) : bool :=
  match o with
  | Some x => truthy x
  | None => false
  end.

Definition Qlt_bool (x y : Q) : bool :=
  (Qnum x * QDen y <? Qnum y * QDen x)%Z.

(** [str.upper()] on ASCII text. *)
Definition upper_ascii (c : ascii) : ascii :=
  let n := nat_of_ascii c in
  if (andb (97 <=? n) (n <=? 122))%nat then ascii_of_nat (n - 32) else c.

Fixpoint upper (s : string) : string :=
  match s with
  | EmptyString => EmptyString
  | String c r => String (upper_ascii c) (upper r)
  end.

(** ** The data of a monitor *)

(** One row of [self.data[symbol]]: columns [timestamp] and [price]. *)
Record PricePoint := { timestamp : Timestamp; price : Q }.

(** [self.thresholds[symbol] = {'upper': upper, 'lower': lower}];
    [None] is an empty entry field. *)
Record Thresholds := { th_upper : option Q; th_lower : option Q }.

Record EmailConfig := {
  sender : string; password : string; receiver : string;
  smtp_server : string; smtp_port : Z
}.

Inductive ThresholdType := upper_kind | lower_kind.

(** The text [f"ALERT: {symbol} ${price:.2f} > ${upper}"] (or [<] with the
    lower bound), kept as its parts. *)
Record Alert := {
  al_symbol : string; al_price : Q; al_kind : ThresholdType; al_bound : Q
}.

Inductive LogMsg :=
  | FetchErrorMsg (symbol : string) (e : exn)
  | AlertMsg (a : Alert)
  | EmailSentMsg (symbol : string)
  | EmailFailedMsg (e : exn).

Inductive Level := INFO | ERROR.

Inductive Status :=
  | StatusIdle
  | StatusMonitoring (symbol : string) (p : Q).

(** The [MIMEText] message handed to [server.send_message]. *)
Record Email := {
  mail_from : string; mail_to : string;
  mail_symbol : string; mail_price : Q; mail_kind : ThresholdType
}.

(** What [update_chart] draws. *)
Record Chart := {
  ch_symbol : string;
  ch_points : list PricePoint;
  ch_ma : list (option Q);
  ch_upper_line : option Q;
  ch_lower_line : option Q
}.

Record Entries := {
  symbol_entry : string; upper_entry : string;
  lower_entry : string; interval_var : string
}.

Record Monitor := {
  data : gmap string (list PricePoint);
  thresholds : gmap string Thresholds;
  email_config : option EmailConfig;
  logger : list (Level * LogMsg);
  alerts_list : list Alert;
  status_var : Status;
  chart : option Chart;
  entries : Entries;
  start_button : bool;              (* state = 'normal' *)
  stop_button : bool;
  dialogs : list string;            (* messagebox.showerror texts *)
  slept : list Z;                   (* arguments of time.sleep, in order *)
  requests : nat;                   (* calls of ts.get_intraday so far *)
  smtp_sessions : nat;              (* smtplib.SMTP sessions opened so far *)
  outbox : list Email
}.

Definition set_data (f : gmap string (list PricePoint) -> gmap string (list PricePoint))
    (s : Monitor) : Monitor :=
  {| data := f (data s); thresholds := thresholds s;
     email_config := email_config s; logger := logger s;
     alerts_list := alerts_list s; status_var := status_var s;
     chart := chart s; entries := entries s; start_button := start_button s;
     stop_button := stop_button s; dialogs := dialogs s; slept := slept s;
     requests := requests s; smtp_sessions := smtp_sessions s;
     outbox := outbox s |}.

Definition set_thresholds (f : gmap string Thresholds -> gmap string Thresholds)
    (s : Monitor) : Monitor :=
  {| data := data s; thresholds := f (thresholds s);
     email_config := email_config s; logger := logger s;
     alerts_list := alerts_list s; status_var := status_var s;
     chart := chart s; entries := entries s; start_button := start_button s;
     stop_button := stop_button s; dialogs := dialogs s; slept := slept s;
     requests := requests s; smtp_sessions := smtp_sessions s;
     outbox := outbox s |}.

Definition set_email_config (c : option EmailConfig) (s : Monitor) : Monitor :=
  {| data := data s; thresholds := thresholds s;
     email_config := c; logger := logger s;
     alerts_list := alerts_list s; status_var := status_var s;
     chart := chart s; entries := entries s; start_button := start_button s;
     stop_button := stop_button s; dialogs := dialogs s; slept := slept s;
     requests := requests s; smtp_sessions := smtp_sessions s;
     outbox := outbox s |}.

Definition log (lvl : Level) (m : LogMsg) (s : Monitor) : Monitor :=
  {| data := data s; thresholds := thresholds s;
     email_config := email_config s; logger := logger s ++ [(lvl, m)];
     alerts_list := alerts_list s; status_var := status_var s;
     chart := chart s; entries := entries s; start_button := start_button s;
     stop_button := stop_button s; dialogs := dialogs s; slept := slept s;
     requests := requests s; smtp_sessions := smtp_sessions s;
     outbox := outbox s |}.

Definition alerts_insert_end (a : Alert) (s : Monitor) : Monitor :=
  {| data := data s; thresholds := thresholds s;
     email_config := email_config s; logger := logger s;
     alerts_list := alerts_list s ++ [a]; status_var := status_var s;
     chart := chart s; entries := entries s; start_button := start_button s;
     stop_button := stop_button s; dialogs := dialogs s; slept := slept s;
     requests := requests s; smtp_sessions := smtp_sessions s;
     outbox := outbox s |}.

Definition set_status (st : Status) (s : Monitor) : Monitor :=
  {| data := data s; thresholds := thresholds s;
     email_config := email_config s; logger := logger s;
     alerts_list := alerts_list s; status_var := st;
     chart := chart s; entries := entries s; start_button := start_button s;
     stop_button := stop_button s; dialogs := dialogs s; slept := slept s;
     requests := requests s; smtp_sessions := smtp_sessions s;
     outbox := outbox s |}.

Definition set_chart (c : Chart) (s : Monitor) : Monitor :=
  {| data := data s; thresholds := thresholds s;
     email_config := email_config s; logger := logger s;
     alerts_list := alerts_list s; status_var := status_var s;
     chart := Some c; entries := entries s; start_button := start_button s;
     stop_button := stop_button s; dialogs := dialogs s; slept := slept s;
     requests := requests s; smtp_sessions := smtp_sessions s;
     outbox := outbox s |}.

Definition set_entries (e : Entries) (s : Monitor) : Monitor :=
  {| data := data s; thresholds := thresholds s;
     email_config := email_config s; logger := logger s;
     alerts_list := alerts_list s; status_var := status_var s;
     chart := chart s; entries := e; start_button := start_button s;
     stop_button := stop_button s; dialogs := dialogs s; slept := slept s;
     requests := requests s; smtp_sessions := smtp_sessions s;
     outbox := outbox s |}.

Definition set_buttons (start stop : bool) (s : Monitor) : Monitor :=
  {| data := data s; thresholds := thresholds s;
     email_config := email_config s; logger := logger s;
     alerts_list := alerts_list s; status_var := status_var s;
     chart := chart s; entries := entries s; start_button := start;
     stop_button := stop; dialogs := dialogs s; slept := slept s;
     requests := requests s; smtp_sessions := smtp_sessions s;
     outbox := outbox s |}.

Definition showerror (text : string) (s : Monitor) : Monitor :=
  {| data := data s; thresholds := thresholds s;
     email_config := email_config s; logger := logger s;
     alerts_list := alerts_list s; status_var := status_var s;
     chart := chart s; entries := entries s; start_button := start_button s;
     stop_button := stop_button s; dialogs := dialogs s ++ [text];
     slept := slept s;
     requests := requests s; smtp_sessions := smtp_sessions s;
     outbox := outbox s |}.

Definition record_sleep (secs : Z) (s : Monitor) : Monitor :=
  {| data := data s; thresholds := thresholds s;
     email_config := email_config s; logger := logger s;
     alerts_list := alerts_list s; status_var := status_var s;
     chart := chart s; entries := entries s; start_button := start_button s;
     stop_button := stop_button s; dialogs := dialogs s;
     slept := slept s ++ [secs];
     requests := requests s; smtp_sessions := smtp_sessions s;
     outbox := outbox s |}.

Definition count_request (s : Monitor) : Monitor :=
  {| data := data s; thresholds := thresholds s;
     email_config := email_config s; logger := logger s;
     alerts_list := alerts_list s; status_var := status_var s;
     chart := chart s; entries := entries s; start_button := start_button s;
     stop_button := stop_button s; dialogs := dialogs s; slept := slept s;
     requests := S (requests s); smtp_sessions := smtp_sessions s;
     outbox := outbox s |}.

Definition count_smtp_session (s : Monitor) : Monitor :=
  {| data := data s; thresholds := thresholds s;
     email_config := email_config s; logger := logger s;
     alerts_list := alerts_list s; status_var := status_var s;
     chart := chart s; entries := entries s; start_button := start_button s;
     stop_button := stop_button s; dialogs := dialogs s; slept := slept s;
     requests := requests s; smtp_sessions := S (smtp_sessions s);
     outbox := outbox s |}.

Definition deliver (m : Email) (s : Monitor) : Monitor :=
  {| data := data s; thresholds := thresholds s;
     email_config := email_config s; logger := logger s;
     alerts_list := alerts_list s; status_var := status_var s;
     chart := chart s; entries := entries s; start_button := start_button s;
     stop_button := stop_button s; dialogs := dialogs s; slept := slept s;
     requests := requests s; smtp_sessions := smtp_sessions s;
     outbox := outbox s ++ [m] |}.

(** [__init__]: nothing fetched, nothing configured, status "Idle", the
    interval box preset to 60, the stop button disabled. *)
Definition new_monitor : Monitor :=
  {| data := ∅; thresholds := ∅; email_config := None; logger := [];
     alerts_list := []; status_var := StatusIdle; chart := None;
     entries := {| symbol_entry := EmptyString; upper_entry := EmptyString;
                   lower_entry := EmptyString; interval_var := "60" |};
     start_button := true; stop_button := false; dialogs := [];
     slept := []; requests := 0; smtp_sessions := 0; outbox := [] |}.

(** ** The monad of method bodies: state and Python exceptions *)

Inductive Res (A : Type) :=
  | Ok (a : A)
  | Raised (e : exn).
Arguments Ok {A} a.
Arguments Raised {A} e.

Definition M (A : Type) : Type := Monitor -> Res A * Monitor.

#[global] Instance M_ret : MRet M := λ A a s, (Ok a, s).

#[global] Instance M_bind : MBind M := λ A B f m s,
  match m s with
  | (Ok a, s') => f a s'
  | (Raised e, s') => (Raised e, s')
  end.

Definition raise {A} (e : exn) : M A := λ s, (Raised e, s).

(** [try: body  except Exception as e: handler(e)] *)
Definition try_except {A} (body : M A) (handler : exn -> M A) : M A := λ s,
  match body s with
  | (Ok a, s') => (Ok a, s')
  | (Raised e, s') => handler e s'
  end.

Definition gets {A} (f : Monitor -> A) : M A := λ s, (Ok (f s), s).
Definition modify (f : Monitor -> Monitor) : M unit := λ s, (Ok tt, f s).

(** The range of [time.sleep] for an integer.  A sleep of up to
    [sleep_floor] seconds is taken on every platform (the smallest limit
    is the 32-bit count of milliseconds of the Windows wait).  CPython
    turns the argument into a signed 64-bit count of nanoseconds, so that
    nothing beyond [sleep_cap] is taken anywhere.  In between it depends
    on the platform and its clock. *)
Definition sleep_floor : Z := 4294967.
Definition sleep_cap : Z := 9223372036.

(** ** [pandas]: the two operations the monitor uses *)

(** [DataFrame.tail(n)]: the last [n] rows. *)
Definition tail {A} (n : nat) (l : list A) : list A := drop (length l - n) l.

(** [Series.rolling(window).mean()] as the library computes it for a fixed
    window: one pass that keeps the number of observations and their sum,
    removes the values that leave the window and adds the ones that enter
    it; [min_periods] defaults to the window, and a position with fewer
    observations is NaN ([None] here).  On rationals the compensation terms
    of the summation vanish and are left out. *)
Definition win_start (window i : nat) : nat := (i + 1 - window)%nat.

Definition slice (values : list Q) (lo hi : nat) : list Q :=
  take (hi - lo) (drop lo values).

Definition add_mean (acc : nat * Q) (v : Q) : nat * Q :=
  (S (fst acc), (snd acc + v)%Q).

Definition remove_mean (acc : nat * Q) (v : Q) : nat * Q :=
  (pred (fst acc), (snd acc - v)%Q).

Definition calc_mean (minp : nat) (acc : nat * Q) : option Q :=
  if ((minp <=? fst acc) && (0 <? fst acc))%nat
  then Some (snd acc / inject_Z (Z.of_nat (fst acc)))%Q
  else None.

Definition roll_step (values : list Q) (window minp : nat)
    (st : (nat * Q) * list (option Q)) (i : nat) : (nat * Q) * list (option Q) :=
  let s := win_start window i in
  let e := S i in
  let acc :=
    if ((i =? 0) || (i <=? s))%nat
    then foldl add_mean (0%nat, 0%Q) (slice values s e)
    else foldl add_mean
           (foldl remove_mean (fst st) (slice values (win_start window (i - 1)) s))
           (slice values i e) in
  (acc, snd st ++ [calc_mean minp acc]).

Definition rolling_mean (window : nat) (values : list Q) : list (option Q) :=
  snd (foldl (roll_step values window window) ((0%nat, 0%Q), [])
         (seq 0 (length values))).

(** ** The outside world *)

(** What one call of [ts.get_intraday] does: it raises, or it returns a
    table whose rows are (index, '4. close'), possibly empty. *)
Inductive Response :=
  | RespRaises (e : exn)
  | RespTable (rows : list (Timestamp * Q)).

(** What one SMTP session does: every stage can raise. *)
Inductive SmtpOutcome :=
  | Delivered
  | ConnectFails (e : exn)
  | StartTlsFails (e : exn)
  | LoginFails (e : exn)
  | SendFails (e : exn)
  | QuitFails (e : exn).

Section World.

(** [float(text)] and [int(text)]; [None] is [ValueError]. *)
Variable py_float : string -> option Q.
Variable py_int : string -> option Z.
(** The answer of the provider to the [n]-th request, for a symbol. *)
Variable provider : string -> nat -> Response.
(** The outcome of the [n]-th SMTP session. *)
Variable smtp : nat -> SmtpOutcome.
(** What the clock of the platform does with a sleep between [sleep_floor]
    and [sleep_cap]: it takes it ([None]) or raises ([OverflowError] or
    [OSError]). *)
Variable clock : Z -> option exn.

(** [time.sleep(secs)] for an integer: a negative argument raises
    [ValueError], one beyond the range of the clock [OverflowError] or
    what the platform raises. *)
Definition sleep (secs : Z) : M unit :=
  if secs <? 0 then raise (ValueError "sleep length must be non-negative")
  else if sleep_cap <? secs
  then raise (OverflowError "timestamp too large to convert to C _PyTime_t")
  else if secs <=? sleep_floor then modify (record_sleep secs)
  else match clock secs with
       | None => modify (record_sleep secs)
       | Some e => raise e
       end.

(** ** [fetch_price] *)

Definition get_intraday (symbol : string) : M (list (Timestamp * Q)) := λ s,
  match provider symbol (requests s) with
  | RespRaises e => (Raised e, count_request s)
  | RespTable rows => (Ok rows, count_request s)
  end.

(** One pass through the body of [for _ in range(3)]: [Some r] is
    [return r], [None] falls through to the next iteration. *)
Definition fetch_attempt (symbol : string) : M (option (Timestamp * Q)) :=
  try_except
    (rows ← get_intraday symbol;
     match rows with
     | [] => mret None
     | (latest_time, latest_price) :: _ => mret (Some (latest_time, latest_price))
     end)
    (λ e, modify (log ERROR (FetchErrorMsg symbol e));; sleep 2;; mret None).

(** The loop; [None] at the end is [return None, None]. *)
Fixpoint fetch_loop (n : nat) (symbol : string) : M (option (Timestamp * Q)) :=
  match n with
  | O => mret None
  | S k =>
      r ← fetch_attempt symbol;
      match r with
      | Some v => mret (Some v)
      | None => fetch_loop k symbol
      end
  end.

Definition fetch_price (symbol : string) : M (option (Timestamp * Q)) :=
  fetch_loop 3 symbol.

(** ** [send_email_alert] *)

Definition smtp_session (msg : Email) : M unit :=
  n ← gets smtp_sessions;
  modify count_smtp_session;;
  match smtp n with
  | ConnectFails e => raise e          (* smtplib.SMTP(server, port) *)
  | StartTlsFails e => raise e         (* server.starttls() *)
  | LoginFails e => raise e            (* server.login(sender, password) *)
  | SendFails e => raise e             (* server.send_message(msg) *)
  | QuitFails e => modify (deliver msg);; raise e   (* leaving the with block *)
  | Delivered => modify (deliver msg)
  end.

Definition send_email_alert (symbol : string) (p : Q) (kind : ThresholdType)
    : M unit :=
  cfg ← gets email_config;
  match cfg with
  | None => mret tt
  | Some c =>
      let msg := {| mail_from := sender c; mail_to := receiver c;
                    mail_symbol := symbol; mail_price := p;
                    mail_kind := kind |} in
      try_except
        (smtp_session msg;; modify (log INFO (EmailSentMsg symbol)))
        (λ e, modify (log ERROR (EmailFailedMsg e)))
  end.

(** ** [update_data] *)

(** [pd.concat([self.data[symbol], new_data]).tail(50)], with the empty
    frame created when the symbol is new. *)
Definition append_point (pt : PricePoint) (d : gmap string (list PricePoint))
    (symbol : string) : gmap string (list PricePoint) :=
  <[symbol := tail 50 (default [] (d !! symbol) ++ [pt])]> d.

(** [price > upper] and [price < lower]. *)
Definition crossed (kind : ThresholdType) (p b : Q) : bool :=
  match kind with
  | upper_kind => Qlt_bool b p
  | lower_kind => Qlt_bool p b
  end.

(** One of the two threshold tests and its three effects:
    [if upper and price > upper: ...], [if lower and price < lower: ...]. *)
Definition check_threshold (symbol : string) (p : Q) (kind : ThresholdType)
    (bound : option Q) : M unit :=
  match bound with
  | Some b =>
      if truthy b && crossed kind p b then
        let alert := {| al_symbol := symbol; al_price := p;
                        al_kind := kind; al_bound := b |} in
        modify (alerts_insert_end alert);;
        modify (log INFO (AlertMsg alert));;
        send_email_alert symbol p kind
      else mret tt
  | None => mret tt
  end.

(** The body of [update_data] after the call of [fetch_price]. *)
Definition process_quote (symbol : string) (r : option (Timestamp * Q))
    : M (option Q) :=
  match r with
  | Some (ts, p) =>
      if truthy p then
        modify (set_data (λ d, append_point {| timestamp := ts; price := p |} d symbol));;
        th ← gets thresholds;
        let upper := th !! symbol ≫= th_upper in
        let lower := th !! symbol ≫= th_lower in
        check_threshold symbol p upper_kind upper;;
        check_threshold symbol p lower_kind lower;;
        mret (Some p)
      else mret None
  | None => mret None
  end.

Definition update_data (symbol : string) : M (option Q) :=
  r ← fetch_price symbol;
  process_quote symbol r.

(** ** [update_chart] *)

Definition update_chart (symbol : string) : M unit :=
  d ← gets data;
  match d !! symbol with
  | None | Some [] => mret tt
  | Some df =>
      th ← gets thresholds;
      let upper := th !! symbol ≫= th_upper in
      let lower := th !! symbol ≫= th_lower in
      modify (set_chart
        {| ch_symbol := symbol; ch_points := df;
           ch_ma := rolling_mean 5 (price <$> df);
           ch_upper_line := if opt_truthy upper then upper else None;
           ch_lower_line := if opt_truthy lower then lower else None |})
  end.

(** ** One iteration of the [while] loop of [monitoring_loop] *)

Definition loop_body (symbol : string) (interval : Z) : M unit :=
  p ← update_data symbol;
  (if opt_truthy p
   then modify (set_status (StatusMonitoring symbol (default 0%Q p)));;
        update_chart symbol
   else mret tt);;
  sleep interval.

(** The same iteration from the point where [fetch_price] has returned [r]
    up to, and without, [time.sleep(interval)]. *)
Definition publish (symbol : string) (r : option (Timestamp * Q)) : M unit :=
  p ← process_quote symbol r;
  if opt_truthy p
  then modify (set_status (StatusMonitoring symbol (default 0%Q p)));;
       update_chart symbol
  else mret tt.

(** ** [start_monitoring]: reading and validating the entries *)

(** [float(entry.get()) if entry.get() else None], for the texts that
    [float()] refuses or turns into a number; a text it turns into nan or
    an infinity is outside [py_float]. *)
Definition read_threshold (text : string) : M (option Q) :=
  if decide (text = EmptyString) then mret None
  else match py_float text with
       | Some v => mret (Some v)
       | None => raise (ValueError "could not convert string to float")
       end.

(** Lines 245 to 258.  [Some (symbol, upper, lower)] when control reaches
    line 260, [None] for each of the three [return]s. *)
Definition validate_entries : M (option (string * option Q * option Q)) :=
  e ← gets entries;
  let symbol := upper (symbol_entry e) in
  if decide (symbol = EmptyString) then
    modify (showerror "Please enter a stock symbol");; mret None
  else
    try_except
      (up ← read_threshold (upper_entry e);
       lo ← read_threshold (lower_entry e);
       if opt_truthy up && opt_truthy lo
          && Qle_bool (default 0%Q up) (default 0%Q lo)
       then modify (showerror "Upper threshold must be greater than lower threshold");;
            mret None
       else mret (Some (symbol, up, lo)))
      (λ e, match e with
            | ValueError _ =>
                modify (showerror "Thresholds must be valid numbers");; mret None
            | _ => raise e
            end).

(** ** The life cycle as a transition system *)

(** Where a thread running [monitoring_loop] stands. *)
Inductive ThreadPc :=
  | AtEntry                                        (* line 229 *)
  | AtWhile (symbol : string) (interval : Z)       (* line 232, before the test *)
  | InBody (symbol : string) (interval : Z)        (* line 233, before the fetch *)
  | Fetched (symbol : string) (interval : Z) (r : option (Timestamp * Q))
  | AtSleep (symbol : string) (interval : Z)       (* line 237 *)
  | AtExit                                         (* line 239 *)
  | Finished.

(** Who called [stop_monitoring]: the stop button, [start_monitoring]
    (line 262) or [on_closing] (line 278). *)
Inductive Caller := FromButton | FromStart | FromClosing.

(** Where the Tk event thread stands. *)
Inductive HandlerPc :=
  | InMainloop
  | Start261                   (* start_monitoring at [if self.running] *)
  | Start263                   (* start_monitoring at [self.running = True] *)
  | Stop272 (k : Caller)       (* stop_monitoring at [self.running = False] *)
  | Stop273 (k : Caller)       (* stop_monitoring at hasattr / join *)
  | Destroyed.

Record App := {
  self : Monitor;
  running : bool;
  thread : option nat;         (* [self.thread]; [None]: no such attribute *)
  threads : list ThreadPc;     (* every thread started so far *)
  handler : HandlerPc
}.

Definition initial : App :=
  {| self := new_monitor; running := false; thread := None; threads := [];
     handler := InMainloop |}.

Definition with_self (m : Monitor) (x : App) : App :=
  {| self := m; running := running x; thread := thread x;
     threads := threads x; handler := handler x |}.

Definition with_handler (h : HandlerPc) (x : App) : App :=
  {| self := self x; running := running x; thread := thread x;
     threads := threads x; handler := h |}.

Definition with_running (b : bool) (x : App) : App :=
  {| self := self x; running := b; thread := thread x;
     threads := threads x; handler := handler x |}.

Definition with_thread_pc (tid : nat) (pc : ThreadPc) (x : App) : App :=
  {| self := self x; running := running x; thread := thread x;
     threads := <[tid := pc]> (threads x); handler := handler x |}.

(** [self.thread = threading.Thread(target=self.monitoring_loop)] and
    [self.thread.start()]. *)
Definition spawn (x : App) : App :=
  {| self := self x; running := running x;
     thread := Some (length (threads x));
     threads := threads x ++ [AtEntry]; handler := handler x |}.

Inductive Action :=
  | UserTypes (e : Entries)          (* the user edits the entry fields *)
  | SaveEmail (c : EmailConfig)      (* the Save button of the email dialog *)
  | ClickStart
  | ClickStop
  | CloseWindow
  | Handler                          (* the event thread takes its next step *)
  | Background (tid : nat).          (* thread [tid] takes its next step *)

Definition is_live (pc : ThreadPc) : bool :=
  match pc with
  | Finished => false
  | _ => true
  end.

(** Where [stop_monitoring] returns to. *)
Definition resume (k : Caller) : HandlerPc :=
  match k with
  | FromButton => InMainloop
  | FromStart => Start263
  | FromClosing => Destroyed
  end.

(** One step of the event thread inside a handler; [None]: it cannot move
    (it waits in [join], or no handler is running). *)
Definition handler_step (x : App) : option App :=
  match handler x with
  | Start261 =>
      if running x then Some (with_handler (Stop272 FromStart) x)
      else Some (with_handler Start263 x)
  | Start263 =>
      Some (with_handler InMainloop
              (spawn (with_self (set_buttons false true (self x))
                        (with_running true x))))
  | Stop272 k => Some (with_handler (Stop273 k) (with_running false x))
  | Stop273 k =>
      match thread x with
      | None => Some (with_handler (resume k) x)
      | Some tid =>
          match threads x !! tid with
          | Some Finished => Some (with_handler (resume k) x)
          | _ => None
          end
      end
  | InMainloop | Destroyed => None
  end.

(** An event is taken from the queue only by the idle main loop. *)
Definition event_step (a : Action) (x : App) : option App :=
  match handler x with
  | InMainloop =>
      match a with
      | UserTypes e => Some (with_self (set_entries e (self x)) x)
      | SaveEmail c => Some (with_self (set_email_config (Some c) (self x)) x)
      | ClickStart =>
          match validate_entries (self x) with
          | (Ok (Some (symbol, up, lo)), m) =>
              Some (with_handler Start261
                      (with_self
                         (set_thresholds
                            <[symbol := {| th_upper := up; th_lower := lo |}]> m)
                         x))
          | (_, m) => Some (with_self m x)
          end
      | ClickStop => Some (with_handler (Stop272 FromButton) x)
      | CloseWindow => Some (with_handler (Stop272 FromClosing) x)
      | _ => None
      end
  | _ => None
  end.

(** The next pc of a thread after a method body has run: an exception that
    leaves [monitoring_loop] ends the thread. *)
Definition after {A} (r : Res A * Monitor) (next : A -> ThreadPc)
    : ThreadPc * Monitor :=
  match r with
  | (Ok a, m) => (next a, m)
  | (Raised _, m) => (Finished, m)
  end.

(** One step of a thread.  The steps that call into Tk (the entries at
    line 229, the list of alerts, the status text, the canvas, the
    buttons) are possible here whatever the event thread does; with a
    threaded Tcl such a call waits until the event thread is back in its
    main loop, which leaves the program with a part of these executions
    only. *)
Definition thread_step (pc : ThreadPc) (run_flag : bool) (m : Monitor)
    : option (ThreadPc * Monitor) :=
  match pc with
  | AtEntry =>
      let symbol := upper (symbol_entry (entries m)) in
      match py_int (interval_var (entries m)) with
      | Some interval => Some (AtWhile symbol interval, m)
      | None => Some (Finished, m)
      end
  | AtWhile symbol interval =>
      if run_flag && negb (bool_decide (symbol = EmptyString))
      then Some (InBody symbol interval, m)
      else Some (AtExit, m)
  | InBody symbol interval =>
      Some (after (fetch_price symbol m) (Fetched symbol interval))
  | Fetched symbol interval r =>
      Some (after (publish symbol r m) (λ _, AtSleep symbol interval))
  | AtSleep symbol interval =>
      Some (after (sleep interval m) (λ _, AtWhile symbol interval))
  | AtExit =>
      Some (Finished, set_buttons true false (set_status StatusIdle m))
  | Finished => None
  end.

Definition background_step (tid : nat) (x : App) : option App :=
  pc ← threads x !! tid;
  '(pc', m) ← thread_step pc (running x) (self x);
  Some (with_thread_pc tid pc' (with_self m x)).

Definition step (a : Action) (x : App) : option App :=
  match a with
  | Handler => handler_step x
  | Background tid => background_step tid x
  | _ => event_step a x
  end.

(** A schedule is a list of actions; it runs if every action can be taken. *)
Fixpoint run (acts : list Action) (x : App) : option App :=
  match acts with
  | [] => Some x
  | a :: rest => x' ← step a x; run rest x'
  end.

End World.

(** ** Specification-side definitions *)

Definition sumQ (l : list Q) : Q := foldr Qplus 0%Q l.

(** The moving average in the words of the specification: the arithmetic
    mean of the [window] points ending at index [i], undefined when fewer
    than [window] points are available. *)
Definition trailing_mean_spec (window : nat) (values : list Q) (i : nat)
    : option Q :=
  if (window <=? i + 1)%nat
  then Some (sumQ (slice values (i + 1 - window) (i + 1))
             / inject_Z (Z.of_nat window))%Q
  else None.

(** Equality of optional rationals up to the value of the fraction. *)
Definition opt_Qeq (a b : option Q) : Prop :=
  match a, b with
  | Some x, Some y => (x == y)%Q
  | None, None => True
  | _, _ => False
  end.

(** [n] appends to the history of one symbol, oldest first. *)
Definition appends (symbol : string) (pts : list PricePoint)
    (d : gmap string (list PricePoint)) : gmap string (list PricePoint) :=
  foldl (λ d pt, append_point pt d symbol) d pts.

(** The answers the provider gives to the three requests of one
    [fetch_price] that starts in state [s]. *)
Definition answers (provider : string -> nat -> Response) (symbol : string)
    (s : Monitor) : list Response :=
  provider symbol <$> seq (requests s) 3.

(** An answer that ends the retry loop: a table with at least one row. *)
Definition quote_of (r : Response) : option (Timestamp * Q) :=
  match r with
  | RespTable (row :: _) => Some row
  | _ => None
  end.

(** The answers [fetch_price] consumes: up to and including the first one
    that carries a quote. *)
Fixpoint consumed (rs : list Response) : list Response :=
  match rs with
  | [] => []
  | r :: rest => if quote_of r is Some _ then [r] else r :: consumed rest
  end.

Fixpoint first_quote (rs : list Response) : option (Timestamp * Q) :=
  match rs with
  | [] => None
  | r :: rest => if quote_of r is Some q then Some q else first_quote rest
  end.

(** The exceptions among a list of answers, in order. *)
Definition raised_in (rs : list Response) : list exn :=
  omap (λ r, if r is RespRaises e then Some e else None) rs.

(** The retry policy as the specification words it, where an empty table is
    a failure like any other: every answer without a quote is logged and
    followed by a two-second sleep. *)
Definition every_failure_logged_and_slept
    (provider : string -> nat -> Response) (clock : Z -> option exn)
    (symbol : string) (s : Monitor) : Prop :=
  let s' := snd (fetch_price provider clock symbol s) in
  let failures :=
    length (filter (λ r, quote_of r = None)
              (consumed (answers provider symbol s))) in
  length (logger s') = (length (logger s) + failures)%nat
  ∧ slept s' = slept s ++ replicate failures 2.

(** The state of the pass after the positions below [n]. *)
Definition pass (values : list Q) (w n : nat) : (nat * Q) * list (option Q) :=
  foldl (roll_step values w w) ((0%nat, 0%Q), []) (seq 0 n).

(** The effect of one consumed answer on the monitor. *)
Definition attempt_effect (symbol : string) (s : Monitor) (r : Response)
    : Monitor :=
  match r with
  | RespRaises e =>
      record_sleep 2 (log ERROR (FetchErrorMsg symbol e) (count_request s))
  | RespTable _ => count_request s
  end.

(** What a fetch never touches. *)
Definition same_shown (s s' : Monitor) : Prop :=
  data s' = data s ∧ thresholds s' = thresholds s
  ∧ email_config s' = email_config s ∧ alerts_list s' = alerts_list s
  ∧ status_var s' = status_var s ∧ chart s' = chart s
  ∧ entries s' = entries s ∧ outbox s' = outbox s.

Ltac unfold_m :=
  unfold mbind, mret, M_bind, M_ret, try_except, raise, gets, modify in *.

(** The threshold test as the code makes it, and as the specification
    words it ("the threshold is set and the price is beyond it"). *)
Definition fires (kind : ThresholdType) (p : Q) (bound : option Q) : bool :=
  match bound with
  | Some b => truthy b && crossed kind p b
  | None => false
  end.

Definition set_and_crossed_spec (kind : ThresholdType) (p : Q)
    (bound : option Q) : bool :=
  match bound with
  | Some b => crossed kind p b
  | None => false
  end.

Definition alert_for (symbol : string) (p : Q) (kind : ThresholdType)
    (bound : option Q) : Alert :=
  {| al_symbol := symbol; al_price := p; al_kind := kind;
     al_bound := default 0%Q bound |}.

(** The exception of an SMTP session, if any. *)
Definition smtp_error (o : SmtpOutcome) : option exn :=
  match o with
  | Delivered => None
  | ConnectFails e | StartTlsFails e | LoginFails e | SendFails e
  | QuitFails e => Some e
  end.

(** What sending mail never touches; the log only grows. *)
Definition same_but_mail (s s' : Monitor) : Prop :=
  data s' = data s ∧ thresholds s' = thresholds s
  ∧ email_config s' = email_config s ∧ alerts_list s' = alerts_list s
  ∧ status_var s' = status_var s ∧ chart s' = chart s
  ∧ entries s' = entries s ∧ slept s' = slept s
  ∧ requests s' = requests s ∧ logger s `prefix_of` logger s'.

(** A field that is not empty and that [float()] refuses. *)
Definition non_numeric (py_float : string -> option Q) (text : string) : Prop :=
  text ≠ EmptyString ∧ py_float text = None.

(** ** The life cycle: states and what holds in all of them *)

Definition all_finished (x : App) : Prop :=
  Forall (λ pc, is_live pc = false) (threads x).

(** The invariant of the life cycle.  A thread that has not finished is the
    one [self.thread] names; the event thread finds no unfinished thread
    when it idles or tests the flag with the flag down, nor when it is
    about to launch; and it waits in [join] with the flag down. *)
Definition lifecycle_inv (x : App) : Prop :=
  (∀ tid pc, threads x !! tid = Some pc -> is_live pc = true ->
             thread x = Some tid)
  ∧ match handler x with
    | InMainloop | Start261 => running x = false -> all_finished x
    | Start263 => all_finished x
    | Stop273 _ => running x = false
    | Stop272 _ | Destroyed => True
    end.

(** ** A concrete world for examples *)

Definition digit_of (c : ascii) : option Z :=
  let n := nat_of_ascii c in
  if ((48 <=? n) && (n <=? 57))%nat then Some (Z.of_nat (n - 48)) else None.

Fixpoint digits_value (acc : Z) (s : string) : option Z :=
  match s with
  | EmptyString => Some acc
  | String c r => d ← digit_of c; digits_value (10 * acc + d) r
  end.

(** [int()] and [float()] restricted to non-empty strings of ASCII digits,
    where they agree with Python; the examples use them on such strings
    and on text without any digit. *)
Definition digits_int (s : string) : option Z :=
  if decide (s = EmptyString) then None else digits_value 0 s.

Definition digits_float (s : string) : option Q :=
  inject_Z <$> digits_int s.

(** A provider that gives the listed answers, then empty tables. *)
Definition scripted (rs : list Response) : string -> nat -> Response :=
  λ _ n, nth n rs (RespTable []).

Definition smtp_down : nat -> SmtpOutcome :=
  λ _, ConnectFails (SMTPException "connection refused").

Definition smtp_up : nat -> SmtpOutcome := λ _, Delivered.

(** A clock that takes every sleep up to [sleep_cap]. *)
Definition steady_clock : Z -> option exn := λ _, None.

Definition example_email : EmailConfig :=
  {| sender := "a@example.org"; password := "secret";
     receiver := "b@example.org"; smtp_server := "smtp.gmail.com";
     smtp_port := 587 |}.

Definition typed (symbol up lo interval : string) : Entries :=
  {| symbol_entry := symbol; upper_entry := up; lower_entry := lo;
     interval_var := interval |}.

(** The user types a symbol, starts, the thread reaches the loop body;
    then the stop button: the flag goes down while the thread is still in
    its iteration, and the thread runs to its end. *)
Definition start_then_stop : list Action :=
  [UserTypes (typed "aapl" EmptyString EmptyString "60"); ClickStart; Handler; Handler;
   Background 0; Background 0;
   ClickStop; Handler;
   Background 0; Background 0; Background 0; Background 0; Background 0].

(** A start for AAPL and, while its thread is in the loop body, a start
    for MSFT. *)
Definition start_then_start : list Action :=
  [UserTypes (typed "aapl" EmptyString EmptyString "60"); ClickStart; Handler; Handler;
   Background 0; Background 0;
   UserTypes (typed "msft" EmptyString EmptyString "60"); ClickStart; Handler; Handler;
   Background 0; Background 0; Background 0; Background 0; Background 0;
   Handler; Handler].

Definition one_quote : string -> nat -> Response :=
  scripted [RespTable [(1, 150%Q)]].

(** The states the two schedules lead to. *)
Definition at_join : App :=
  default initial
    (run digits_float digits_int one_quote smtp_up
        steady_clock start_then_stop initial).

Definition restarted : App :=
  default initial
    (run digits_float digits_int one_quote smtp_up
        steady_clock start_then_start initial).

(** A monitor whose only thread stands before the fetch. *)
Definition in_cycle : App :=
  {| self := new_monitor; running := true; thread := Some 0%nat;
     threads := [InBody "AAPL" 60]; handler := InMainloop |}.

(** The entries AAPL, upper bound 0, lower bound 5, before the start
    button is pressed. *)
Definition zero_upper_entries : App :=
  with_self (set_entries (typed "AAPL" "0" "5" "60") new_monitor) initial.

(** A monitor configured with an upper threshold of zero for AAPL. *)
Definition zero_upper_monitor : Monitor :=
  set_thresholds <["AAPL" := {| th_upper := Some 0%Q; th_lower := None |}]>
    new_monitor.

(** ** Further notions for the rest of the class *)

(** The alerts one quote raises under a pair of thresholds, upper first. *)
Definition crossings (symbol : string) (p : Q) (th : option Thresholds)
    : list Alert :=
  (if fires upper_kind p (th ≫= th_upper)
   then [alert_for symbol p upper_kind (th ≫= th_upper)] else [])
  ++ (if fires lower_kind p (th ≫= th_lower)
      then [alert_for symbol p lower_kind (th ≫= th_lower)] else []).

(** The message of an alert, as [send_email_alert] builds it. *)
Definition mail_of (c : EmailConfig) (symbol : string) (p : Q)
    (kind : ThresholdType) : Email :=
  {| mail_from := sender c; mail_to := receiver c; mail_symbol := symbol;
     mail_price := p; mail_kind := kind |}.

(** The sessions in which [server.send_message] has returned. *)
Definition handed_over (o : SmtpOutcome) : bool :=
  match o with
  | Delivered | QuitFails _ => true
  | _ => false
  end.

(** What line 253 lets through: not both bounds truthy with the upper one
    at or below the lower one. *)
Definition pair_ok (th : Thresholds) : Prop :=
  opt_truthy (th_upper th) && opt_truthy (th_lower th)
  && Qle_bool (default 0%Q (th_upper th)) (default 0%Q (th_lower th))
  = false.

(** A key of [self.thresholds] or [self.data]: not empty, in upper case. *)
Definition symbol_ok (sym : string) : Prop :=
  sym ≠ EmptyString ∧ upper sym = sym.

Definition history_ok (h : list PricePoint) : Prop :=
  h ≠ [] ∧ (length h <= 50)%nat ∧ Forall (λ pt, truthy (price pt) = true) h.

(** The symbol a thread carries once it has read the entry. *)
Definition pc_ok (pc : ThreadPc) : Prop :=
  match pc with
  | AtWhile sym _ | AtSleep sym _ => upper sym = sym
  | InBody sym _ | Fetched sym _ _ => symbol_ok sym
  | AtEntry | AtExit | Finished => True
  end.

Definition store_inv (x : App) : Prop :=
  (∀ sym th, thresholds (self x) !! sym = Some th -> symbol_ok sym ∧ pair_ok th)
  ∧ (∀ sym h, data (self x) !! sym = Some h -> symbol_ok sym ∧ history_ok h)
  ∧ Forall pc_ok (threads x).

(** The symbol and the interval of a thread inside its loop. *)
Definition pc_params (pc : ThreadPc) : option (string * Z) :=
  match pc with
  | AtWhile sym iv | InBody sym iv | Fetched sym iv _ | AtSleep sym iv =>
      Some (sym, iv)
  | AtEntry | AtExit | Finished => None
  end.

(** Where the event thread stands after the window is closed, together
    with the life-cycle invariant. *)
Definition closing_inv (x : App) : Prop :=
  lifecycle_inv x ∧ (handler x = Destroyed -> all_finished x).

(** With the flag down, the event thread finds no unfinished thread
    before it clears the flag either. *)
Definition joined_inv (x : App) : Prop :=
  closing_inv x
  ∧ ∀ k, handler x = Stop272 k -> running x = false -> all_finished x.

(** A monitor with a history of two points for AAPL and thresholds. *)
Definition watched_monitor : Monitor :=
  set_data <["AAPL" := [{| timestamp := 1; price := 95%Q |};
                        {| timestamp := 2; price := 97%Q |}]]>
    (set_thresholds
       <["AAPL" := {| th_upper := Some 90%Q; th_lower := Some 50%Q |}]>
       new_monitor).

(** The entries for a start of AAPL with the bounds 90 and 50. *)
Definition ready_to_start : App :=
  with_self (set_entries (typed "aapl" "90" "50" "60") new_monitor) initial.

(** The schedule [start_then_stop] followed by the closing of the window
    and the two steps of [stop_monitoring]. *)
Definition start_stop_close : list Action :=
  start_then_stop ++ [Handler; CloseWindow; Handler; Handler].

Definition closed : App :=
  default initial
    (run digits_float digits_int one_quote smtp_up
        steady_clock start_stop_close initial).

(** A start with both bounds, the thread taken through one cycle. *)
Definition start_with_bounds : list Action :=
  [UserTypes (typed "aapl" "90" "50" "60"); ClickStart; Handler; Handler;
   Background 0; Background 0; Background 0; Background 0].

Definition started_with_bounds : App :=
  default initial
    (run digits_float digits_int one_quote smtp_up
        steady_clock start_with_bounds initial).

(** A running monitor whose thread has fetched a quote of 100 for AAPL,
    with no thresholds stored yet, while the user has typed new bounds. *)
Definition mid_cycle : App :=
  {| self := set_entries (typed "aapl" "90" "50" "60") new_monitor;
     running := true; thread := Some 0%nat;
     threads := [Fetched "AAPL" 60 (Some (1, 100%Q))];
     handler := InMainloop |}.

Definition is_background (a : Action) : bool :=
  match a with
  | Background _ => true
  | _ => false
  end.

(** The entries for a start of AAPL with an interval that is no number. *)
Definition bad_interval : App :=
  with_self (set_entries (typed "aapl" EmptyString EmptyString "soon") new_monitor)
    initial.



(** The stop button pressed while the thread stands before its fetch: the
    state in which [stop_monitoring] has lowered the flag and waits. *)
Definition waiting_in_join : App :=
  default initial
    (run digits_float digits_int one_quote smtp_up steady_clock
       (take 8 start_then_stop) initial).

(** * Properties *)

(** ** Python values *)

Lemma Qlt_bool_iff x y : Qlt_bool x y = true <-> (x < y)%Q.
Proof. unfold Qlt_bool, Qlt. apply Z.ltb_lt. Qed.

Lemma truthy_iff x : truthy x = true <-> ~ (x == 0)%Q.
Proof.
  unfold truthy. rewrite negb_true_iff, <- not_true_iff_false.
  by rewrite Qeq_bool_iff.
Qed.

(** ** The bounded history *)

Lemma length_tail {A} n (l : list A) : length (tail n l) = (length l `min` n)%nat.
Proof. unfold tail. rewrite length_drop. lia. Qed.

Lemma tail_all {A} n (l : list A) : (length l <= n)%nat -> tail n l = l.
Proof. intros H. unfold tail. by replace (length l - n)%nat with 0%nat by lia. Qed.

Lemma tail_app_tail {A} n (a b : list A) :
  tail n (tail n a ++ b) = tail n (a ++ b).
Proof.
  unfold tail. rewrite !length_app, length_drop, !drop_app, drop_drop, length_drop.
  f_equal; [f_equal; lia | f_equal; lia].
Qed.

Lemma appends_lookup symbol pts d :
  (length (default [] (d !! symbol)) <= 50)%nat ->
  default [] (appends symbol pts d !! symbol)
  = tail 50 (default [] (d !! symbol) ++ pts).
Proof.
  revert d. induction pts as [|pt pts IH]; intros d Hd; simpl.
  - by rewrite app_nil_r, tail_all.
  - unfold appends in *. simpl. rewrite IH.
    + unfold append_point. rewrite lookup_insert_eq. simpl.
      by rewrite tail_app_tail, <- app_assoc.
    + unfold append_point. rewrite lookup_insert_eq. simpl.
      rewrite length_tail. lia.
Qed.

(** Claim C6.  Starting from an empty store, after any sequence of appends
    to one symbol the stored history is exactly the last [min n 50] of the
    appended points, in insertion order: its length never exceeds 50 and
    the points dropped are the oldest ones.  A single append to any store
    leaves at most 50 points. *)
Theorem history_keeps_latest_50 (symbol : string) (pts : list PricePoint) :
  let h := default [] (appends symbol pts ∅ !! symbol) in
  h = drop (length pts - 50) pts
  ∧ length h = (length pts `min` 50)%nat
  ∧ (length h <= 50)%nat
  ∧ ∀ d pt, (length (default [] (append_point pt d symbol !! symbol)) <= 50)%nat.
Proof.
  simpl. rewrite appends_lookup by (rewrite lookup_empty; simpl; lia).
  rewrite lookup_empty. simpl. repeat split.
  - rewrite length_tail. lia.
  - rewrite length_tail. lia.
  - intros d pt. unfold append_point. rewrite lookup_insert_eq. simpl.
    rewrite length_tail. lia.
Qed.

(** ** The moving average *)

Lemma sumQ_app a b : (sumQ (a ++ b) == sumQ a + sumQ b)%Q.
Proof.
  induction a as [|x a IH]; simpl.
  - ring.
  - rewrite IH. ring.
Qed.

Lemma length_slice values lo hi :
  (hi <= length values)%nat -> length (slice values lo hi) = (hi - lo)%nat.
Proof. intros H. unfold slice. rewrite length_take, length_drop. lia. Qed.

Lemma slice_split values lo mid hi :
  (lo <= mid)%nat -> (mid <= hi)%nat ->
  slice values lo hi = slice values lo mid ++ slice values mid hi.
Proof.
  intros H1 H2. unfold slice.
  replace (hi - lo)%nat with ((mid - lo) + (hi - mid))%nat by lia.
  rewrite <- take_take_drop, drop_drop.
  by replace (lo + (mid - lo))%nat with mid by lia.
Qed.

Lemma foldl_add_mean l acc :
  fst (foldl add_mean acc l) = (fst acc + length l)%nat
  ∧ (snd (foldl add_mean acc l) == snd acc + sumQ l)%Q.
Proof.
  revert acc. induction l as [|v l IH]; intros acc; simpl.
  - split; [lia | ring].
  - destruct (IH (add_mean acc v)) as [-> ->]. simpl. split; [lia | ring].
Qed.

Lemma foldl_remove_mean l acc :
  fst (foldl remove_mean acc l) = (fst acc - length l)%nat
  ∧ (snd (foldl remove_mean acc l) == snd acc - sumQ l)%Q.
Proof.
  revert acc. induction l as [|v l IH]; intros acc; simpl.
  - split; [lia | ring].
  - destruct (IH (remove_mean acc v)) as [-> ->]. simpl. split; [lia | ring].
Qed.

Lemma calc_mean_spec w acc values i :
  (1 <= w)%nat ->
  fst acc = (S i - win_start w i)%nat ->
  (snd acc == sumQ (slice values (win_start w i) (S i)))%Q ->
  opt_Qeq (calc_mean w acc) (trailing_mean_spec w values i).
Proof.
  intros Hw Hn Hs. unfold calc_mean, trailing_mean_spec, win_start in *.
  destruct (Nat.leb_spec w (i + 1)).
  - replace (w <=? fst acc)%nat with true by (symmetry; apply Nat.leb_le; lia).
    replace (0 <? fst acc)%nat with true by (symmetry; apply Nat.ltb_lt; lia).
    simpl. replace (fst acc) with w by lia.
    replace (i + 1)%nat with (S i) in * by lia. by rewrite Hs.
  - replace (w <=? fst acc)%nat with false by (symmetry; apply Nat.leb_gt; lia).
    done.
Qed.

Lemma pass_S values w n :
  pass values w (S n) = roll_step values w w (pass values w n) n.
Proof. unfold pass. by rewrite seq_S, foldl_app. Qed.

Lemma roll_step_acc values w st i :
  (1 <= w)%nat -> (S i <= length values)%nat ->
  (i ≠ 0%nat ->
     fst (fst st) = (i - win_start w (i - 1))%nat
     ∧ (snd (fst st) == sumQ (slice values (win_start w (i - 1)) i))%Q) ->
  let acc := fst (roll_step values w w st i) in
  fst acc = (S i - win_start w i)%nat
  ∧ (snd acc == sumQ (slice values (win_start w i) (S i)))%Q.
Proof.
  intros Hw Hi Hprev. unfold roll_step. cbn [fst].
  destruct ((i =? 0)%nat || (i <=? win_start w i)%nat) eqn:Hsetup.
  - destruct (foldl_add_mean (slice values (win_start w i) (S i)) (0%nat, 0%Q))
      as [-> ->].
    rewrite length_slice by done. simpl. split; [lia | ring].
  - apply orb_false_iff in Hsetup as [H0 Hs].
    apply Nat.eqb_neq in H0. apply Nat.leb_gt in Hs.
    destruct (Hprev H0) as [Hn Hq]. unfold win_start in *.
    match goal with
    | |- context [foldl add_mean ?a ?l] =>
        destruct (foldl_add_mean l a) as [-> ->]
    end.
    match goal with
    | |- context [foldl remove_mean ?a ?l] =>
        destruct (foldl_remove_mean l a) as [-> ->]
    end.
    rewrite !length_slice by lia. split; [lia |].
    rewrite Hq.
    rewrite (slice_split values (i - 1 + 1 - w) (i + 1 - w) i) by lia.
    rewrite (slice_split values (i + 1 - w) i (S i)) by lia.
    rewrite !sumQ_app. ring.
Qed.

Lemma pass_invariant values w n :
  (1 <= w)%nat -> (n <= length values)%nat ->
  let st := pass values w n in
  length (snd st) = n
  ∧ (n ≠ 0%nat ->
       fst (fst st) = (n - win_start w (n - 1))%nat
       ∧ (snd (fst st) == sumQ (slice values (win_start w (n - 1)) n))%Q)
  ∧ ∀ i, (i < n)%nat ->
      ∃ o, snd st !! i = Some o ∧ opt_Qeq o (trailing_mean_spec w values i).
Proof.
  intros Hw. induction n as [|n IH]; intros Hn.
  - simpl. repeat split; try done; lia.
  - destruct IH as (Hlen & Hacc & Hout); [lia |].
    rewrite pass_S. set (st := pass values w n) in *.
    pose proof (roll_step_acc values w st n Hw Hn Hacc) as [Hn' Hq'].
    cbn zeta in *. split; [| split].
    + unfold roll_step. cbn [snd]. rewrite length_app, Hlen. simpl. lia.
    + intros _. by replace (S n - 1)%nat with n by lia.
    + intros i Hi. unfold roll_step at 1. cbn [snd].
      destruct (decide (i = n)) as [-> | Hne].
      * eexists. split.
        { rewrite lookup_app_r, Hlen, Nat.sub_diag by lia. reflexivity. }
        by apply calc_mean_spec.
      * destruct (Hout i) as (o & Ho & Heq); [lia |].
        exists o. split; [| done]. by rewrite lookup_app_l by lia.
Qed.

Lemma length_rolling_mean w values :
  (1 <= w)%nat -> length (rolling_mean w values) = length values.
Proof.
  intros Hw. by destruct (pass_invariant values w (length values) Hw) as (H & _).
Qed.

Lemma rolling_mean_trailing w values i :
  (1 <= w)%nat -> (i < length values)%nat ->
  ∃ o, rolling_mean w values !! i = Some o
       ∧ opt_Qeq o (trailing_mean_spec w values i).
Proof.
  intros Hw Hi.
  destruct (pass_invariant values w (length values) Hw) as (_ & _ & H); [lia |].
  by apply H.
Qed.

(** Claim C7.  With window 5 the moving average that [update_chart] plots
    has, at every index [i] of the series, the arithmetic mean of the five
    points ending at [i] when [4 <= i], and no value (NaN, not zero and not
    an exception) when [i < 4]. *)
Theorem moving_average_window_5 (values : list Q) (i : nat) :
  (i < length values)%nat ->
  ∃ o, rolling_mean 5 values !! i = Some o
       ∧ match o with
         | None => (i < 4)%nat
         | Some m =>
             (4 <= i)%nat
             ∧ (m == sumQ (slice values (i - 4) (i + 1)) / 5)%Q
         end.
Proof.
  intros Hi.
  destruct (rolling_mean_trailing 5 values i) as (o & Ho & Heq); [lia | done |].
  exists o. split; [done |].
  unfold trailing_mean_spec in Heq.
  destruct (Nat.leb_spec 5 (i + 1)); destruct o as [m|]; simpl in Heq; try done.
  - split; [lia |]. by replace (i - 4)%nat with (i + 1 - 5)%nat by lia.
  - lia.
Qed.

Lemma moving_average_window_5_witness :
  ∃ o, rolling_mean 5 [10; 20; 30; 40; 50; 60]%Q !! 5%nat = Some o
       ∧ match o with
         | None => (5 < 4)%nat
         | Some m =>
             (4 <= 5)%nat
             ∧ (m == sumQ (slice [10; 20; 30; 40; 50; 60]%Q (5 - 4) (5 + 1)) / 5)%Q
         end.
Proof. apply (moving_average_window_5 [10; 20; 30; 40; 50; 60]%Q 5). simpl. lia. Defined.

(** The series of the specification's example. *)
Example moving_average_example :
  (λ o : option Q, Qred <$> o) <$> rolling_mean 5 [10; 20; 30; 40; 50; 60]%Q
  = [None; None; None; None; Some 30%Q; Some 40%Q].
Proof. reflexivity. Qed.

(** ** The retry loop of [fetch_price] *)

Section Methods.

Variable provider : string -> nat -> Response.
Variable smtp : nat -> SmtpOutcome.
Variable clock : Z -> option exn.

(** *** [fetch_price] *)

Lemma fetch_attempt_eval symbol s :
  fetch_attempt provider clock symbol s
  = (Ok (quote_of (provider symbol (requests s))),
     attempt_effect symbol s (provider symbol (requests s))).
Proof.
  unfold fetch_attempt, get_intraday, sleep. unfold_m.
  destruct (provider symbol (requests s)) as [e | [| [t p] rows]]; reflexivity.
Qed.

Lemma fetch_loop_eval n symbol s :
  let rs := provider symbol <$> seq (requests s) n in
  fetch_loop provider clock n symbol s
  = (Ok (first_quote rs), foldl (attempt_effect symbol) s (consumed rs)).
Proof.
  revert s. induction n as [|n IH]; intros s; [reflexivity |].
  cbn [fetch_loop]. unfold mbind at 1, M_bind at 1.
  rewrite fetch_attempt_eval. cbn [seq fmap list_fmap first_quote consumed].
  destruct (quote_of (provider symbol (requests s))) as [q|] eqn:Hq.
  - reflexivity.
  - rewrite IH. cbn [foldl].
    by destruct (provider symbol (requests s)).
Qed.

Lemma attempts_requests symbol rs s :
  requests (foldl (attempt_effect symbol) s rs) = (requests s + length rs)%nat.
Proof.
  revert s. induction rs as [|r rs IH]; intros s; simpl; [lia |].
  rewrite IH. destruct r; simpl; lia.
Qed.

Lemma attempts_logger symbol rs s :
  logger (foldl (attempt_effect symbol) s rs)
  = logger s ++ ((λ e, (ERROR, FetchErrorMsg symbol e)) <$> raised_in rs).
Proof.
  revert s. induction rs as [|r rs IH]; intros s; simpl.
  - by rewrite app_nil_r.
  - rewrite IH. destruct r; simpl; [by rewrite <- app_assoc | done].
Qed.

Lemma attempts_slept symbol rs s :
  slept (foldl (attempt_effect symbol) s rs)
  = slept s ++ replicate (length (raised_in rs)) 2.
Proof.
  revert s. induction rs as [|r rs IH]; intros s; simpl.
  - by rewrite app_nil_r.
  - rewrite IH. destruct r; simpl; [by rewrite <- app_assoc | done].
Qed.

Lemma attempts_same_shown symbol rs s :
  same_shown s (foldl (attempt_effect symbol) s rs).
Proof.
  revert s. induction rs as [|r rs IH]; intros s; simpl; [by repeat split |].
  specialize (IH (attempt_effect symbol s r)). unfold same_shown in *.
  destruct IH as (-> & -> & -> & -> & -> & -> & -> & ->).
  destruct r; by repeat split.
Qed.

Lemma length_consumed rs : (length (consumed rs) <= length rs)%nat.
Proof.
  induction rs as [|r rs IH]; simpl; [lia |].
  destruct (quote_of r); simpl; lia.
Qed.

End Methods.

(** Claim C5, as the code has it.  [fetch_price] asks the provider at most
    three times and returns the first quote among the answers, or the
    unavailable result [None] when none of the three carries one; it never
    raises.  Every answer that raised is logged as an error and followed by
    a sleep of two seconds, the third one too; an answer that is an empty
    table uses up an attempt without a log entry and without a sleep.
    Nothing else of the monitor changes. *)
Theorem fetch_price_retry_policy (provider : string -> nat -> Response)
    (clock : Z -> option exn) (symbol : string) (s : Monitor) :
  let rs := consumed (answers provider symbol s) in
  let r := fetch_price provider clock symbol s in
  fst r = Ok (first_quote (answers provider symbol s))
  ∧ (length rs <= 3)%nat
  ∧ requests (snd r) = (requests s + length rs)%nat
  ∧ logger (snd r)
    = logger s ++ ((λ e, (ERROR, FetchErrorMsg symbol e)) <$> raised_in rs)
  ∧ slept (snd r) = slept s ++ replicate (length (raised_in rs)) 2
  ∧ same_shown s (snd r).
Proof.
  cbn zeta. unfold fetch_price, answers. rewrite fetch_loop_eval. cbn [fst snd].
  split; [done |]. split.
  { etrans; [apply length_consumed |]. by rewrite length_fmap, length_seq. }
  split; [apply attempts_requests |].
  split; [apply attempts_logger |].
  split; [apply attempts_slept | apply attempts_same_shown].
Qed.

(** An empty table followed by a quote: one failed attempt, yet nothing is
    logged and nothing is slept. *)
Lemma empty_answer_not_logged_nor_slept :
  ¬ every_failure_logged_and_slept
      (scripted [RespTable []; RespTable [(1, 100%Q)]]) steady_clock "AAPL"
      new_monitor.
Proof. intros [H _]. vm_compute in H. discriminate. Qed.

(** ** Running method bodies *)

Lemma bind_eval {A B} (m : M A) (k : A -> M B) s :
  (m ≫= k) s
  = match m s with
    | (Ok a, s') => k a s'
    | (Raised e, s') => (Raised e, s')
    end.
Proof. reflexivity. Qed.

Lemma modify_bind {B} f (k : unit -> M B) s : (modify f ≫= k) s = k tt (f s).
Proof. reflexivity. Qed.

Lemma gets_bind {A B} (f : Monitor -> A) (k : A -> M B) s :
  (gets f ≫= k) s = k (f s) s.
Proof. reflexivity. Qed.

Lemma ret_eval {A} (a : A) s : mret (M := M) a s = (Ok a, s).
Proof. reflexivity. Qed.

(** ** Alerts and mail *)

Section Alerts.

Variable smtp : nat -> SmtpOutcome.

Lemma send_email_alert_ok symbol p kind s :
  let r := send_email_alert smtp symbol p kind s in
  fst r = Ok tt ∧ same_but_mail s (snd r).
Proof.
  unfold send_email_alert, smtp_session, same_but_mail. unfold_m.
  destruct (email_config s) as [c|] eqn:Hc; simpl.
  - destruct (smtp (smtp_sessions s)); simpl;
      repeat split; try done; by apply prefix_app_r.
  - by repeat split.
Qed.

Lemma send_email_alert_skipped symbol p kind s :
  email_config s = None -> send_email_alert smtp symbol p kind s = (Ok tt, s).
Proof. intros H. unfold send_email_alert. unfold_m. by rewrite H. Qed.

Lemma check_threshold_eval symbol p kind bound s :
  let r := check_threshold smtp symbol p kind bound s in
  fst r = Ok tt
  ∧ alerts_list (snd r)
    = alerts_list s
      ++ (if fires kind p bound then [alert_for symbol p kind bound] else [])
  ∧ (if fires kind p bound
     then (INFO, AlertMsg (alert_for symbol p kind bound)) ∈ logger (snd r)
     else snd r = s)
  ∧ logger s `prefix_of` logger (snd r)
  ∧ data (snd r) = data s ∧ thresholds (snd r) = thresholds s
  ∧ email_config (snd r) = email_config s
  ∧ status_var (snd r) = status_var s ∧ chart (snd r) = chart s.
Proof.
  unfold check_threshold, fires, alert_for.
  destruct bound as [b|]; simpl; [| by rewrite app_nil_r].
  destruct (truthy b && crossed kind p b); [| by rewrite app_nil_r].
  rewrite !modify_bind.
  match goal with
  | |- context [send_email_alert smtp symbol p kind ?m] =>
      destruct (send_email_alert_ok symbol p kind m)
        as (Hok & Hd & Ht & He & Ha & Hs & Hc & _ & _ & _ & Hl);
      destruct (send_email_alert smtp symbol p kind m) as [res s']
  end.
  simpl in *. subst res. repeat split; try done.
  - eapply elem_of_prefix; [| exact Hl]. set_solver.
  - etrans; [| exact Hl]. by apply prefix_app_r.
Qed.

End Alerts.

(** The test the code makes, spelled out. *)
Lemma fires_iff kind p bound :
  fires kind p bound = true
  <-> ∃ b, bound = Some b ∧ ¬ (b == 0)%Q
           ∧ match kind with
             | upper_kind => (b < p)%Q
             | lower_kind => (p < b)%Q
             end.
Proof.
  unfold fires, crossed. destruct bound as [b|].
  - rewrite andb_true_iff, truthy_iff. split.
    + intros [Hb Hc]. exists b. repeat split; [done |].
      destruct kind; by apply Qlt_bool_iff.
    + intros (b' & [= <-] & Hb & Hc). split; [done |].
      destruct kind; by apply Qlt_bool_iff.
  - split; [done | by intros (b & ? & _)].
Qed.

(** For a threshold other than zero the code's test is the specification's. *)
Lemma fires_nonzero kind p b :
  ¬ (b == 0)%Q -> fires kind p (Some b) = set_and_crossed_spec kind p (Some b).
Proof. intros H. simpl. apply truthy_iff in H. by rewrite H. Qed.

Section Cycle.

Variable provider : string -> nat -> Response.
Variable smtp : nat -> SmtpOutcome.
Variable clock : Z -> option exn.

Lemma process_quote_eval symbol ts p s :
  truthy p = true ->
  let up := thresholds s !! symbol ≫= th_upper in
  let lo := thresholds s !! symbol ≫= th_lower in
  let r := process_quote smtp symbol (Some (ts, p)) s in
  fst r = Ok (Some p)
  ∧ data (snd r) = append_point {| timestamp := ts; price := p |} (data s) symbol
  ∧ alerts_list (snd r)
    = alerts_list s
      ++ (if fires upper_kind p up then [alert_for symbol p upper_kind up] else [])
      ++ (if fires lower_kind p lo then [alert_for symbol p lower_kind lo] else [])
  ∧ logger s `prefix_of` logger (snd r)
  ∧ thresholds (snd r) = thresholds s ∧ email_config (snd r) = email_config s
  ∧ status_var (snd r) = status_var s ∧ chart (snd r) = chart s.
Proof.
  intros Hp. cbn zeta. unfold process_quote. rewrite Hp.
  rewrite modify_bind, gets_bind. cbn [thresholds set_data].
  set (s1 := set_data _ s).
  rewrite bind_eval.
  destruct (check_threshold_eval smtp symbol p upper_kind
              (thresholds s !! symbol ≫= th_upper) s1)
    as (Hok1 & Ha1 & _ & Hl1 & Hd1 & Ht1 & He1 & Hs1 & Hc1).
  destruct (check_threshold smtp symbol p upper_kind _ s1) as [res1 s2].
  simpl in Hok1, Ha1, Hl1, Hd1, Ht1, He1, Hs1, Hc1. subst res1.
  rewrite bind_eval.
  destruct (check_threshold_eval smtp symbol p lower_kind
              (thresholds s !! symbol ≫= th_lower) s2)
    as (Hok2 & Ha2 & _ & Hl2 & Hd2 & Ht2 & He2 & Hs2 & Hc2).
  destruct (check_threshold smtp symbol p lower_kind _ s2) as [res2 s3].
  simpl in Hok2, Ha2, Hl2, Hd2, Ht2, He2, Hs2, Hc2. subst res2.
  rewrite ret_eval. cbn [fst snd].
  rewrite Hd2, Hd1, Ha2, Ha1, Ht2, Ht1, He2, He1, Hs2, Hs1, Hc2, Hc1.
  repeat split; try done.
  - by rewrite <- app_assoc.
  - by etrans.
Qed.

Lemma process_quote_falsy symbol ts p s :
  truthy p = false ->
  process_quote smtp symbol (Some (ts, p)) s = (Ok None, s).
Proof. intros Hp. unfold process_quote. by rewrite Hp. Qed.

Lemma process_quote_ok symbol r s :
  ∃ o, fst (process_quote smtp symbol r s) = Ok o
       ∧ (opt_truthy o = false -> snd (process_quote smtp symbol r s) = s).
Proof.
  destruct r as [[ts p]|]; [| by exists None].
  destruct (truthy p) eqn:Hp.
  - destruct (process_quote_eval symbol ts p s Hp) as (H & _).
    exists (Some p). split; [done |]. simpl. congruence.
  - rewrite process_quote_falsy by done. by exists None.
Qed.

Lemma update_chart_eval symbol s :
  fst (update_chart symbol s) = Ok tt
  ∧ data (snd (update_chart symbol s)) = data s
  ∧ alerts_list (snd (update_chart symbol s)) = alerts_list s
  ∧ status_var (snd (update_chart symbol s)) = status_var s
  ∧ logger (snd (update_chart symbol s)) = logger s.
Proof.
  unfold update_chart. rewrite gets_bind.
  destruct (data s !! symbol) as [[|pt df]|]; by repeat split.
Qed.

Lemma publish_ok symbol r s : fst (publish smtp symbol r s) = Ok tt.
Proof.
  unfold publish. rewrite bind_eval.
  destruct (process_quote_ok symbol r s) as (o & Ho & _).
  destruct (process_quote smtp symbol r s) as [res s1]. simpl in Ho. subst res.
  destruct (opt_truthy o); [| done].
  rewrite modify_bind. apply update_chart_eval.
Qed.



(** An iteration whose quote is discarded: nothing but the sleep. *)
Lemma loop_body_discarded symbol interval s r :
  fst (fetch_price provider clock symbol s) = Ok r ->
  (∀ s1, process_quote smtp symbol r s1 = (Ok None, s1)) ->
  loop_body provider smtp clock symbol interval s
  = sleep clock interval (snd (fetch_price provider clock symbol s)).
Proof.
  intros Hr Hq. unfold loop_body, update_data.
  rewrite !bind_eval.
  destruct (fetch_price provider clock symbol s) as [res s1]. simpl in Hr. subst res.
  rewrite Hq. simpl. rewrite bind_eval, ret_eval.
  by destruct (sleep clock interval s1) as [[[]|e] s2].
Qed.

(** Sleeping shows nothing, whether it returns or raises. *)
Lemma sleep_frame interval s :
  same_shown s (snd (sleep clock interval s)).
Proof.
  unfold sleep. destruct (interval <? 0); [done |].
  destruct (sleep_cap <? interval); [done |].
  destruct (interval <=? sleep_floor); [done |].
  by destruct (clock interval).
Qed.

(** The ends of the range: -1 and 10^20 raise whatever the clock, two
    seconds are always taken. *)
Example sleep_examples s :
  sleep clock (-1) s
  = (Raised (ValueError "sleep length must be non-negative"), s)
  ∧ sleep clock 100000000000000000000 s
    = (Raised (OverflowError "timestamp too large to convert to C _PyTime_t"), s)
  ∧ sleep clock 2 s = (Ok tt, record_sleep 2 s).
Proof. by split_and!. Qed.

End Cycle.

(** ** The life cycle *)

Section Lifecycle.

Variable py_float : string -> option Q.
Variable py_int : string -> option Z.
Variable provider : string -> nat -> Response.
Variable smtp : nat -> SmtpOutcome.
Variable clock : Z -> option exn.

Local Abbreviation sys_step := (step py_float py_int provider smtp clock).
Local Abbreviation sys_run := (run py_float py_int provider smtp clock).
Local Abbreviation bg_step := (background_step py_int provider smtp clock).
Local Abbreviation th_step := (thread_step py_int provider smtp clock).
Local Abbreviation ev_step := (event_step py_float).

Lemma all_finished_lookup x tid pc :
  all_finished x -> threads x !! tid = Some pc -> is_live pc = false.
Proof. intros H Hl. by eapply (Forall_lookup_1 _ _ _ _ H Hl). Qed.

Lemma thread_step_live pc flag m r :
  th_step pc flag m = Some r -> is_live pc = true.
Proof. by destruct pc. Qed.

Lemma background_step_inv_eq tid x y :
  bg_step tid x = Some y ->
  ∃ pc pc' m,
    threads x !! tid = Some pc
    ∧ th_step pc (running x) (self x) = Some (pc', m)
    ∧ y = with_thread_pc tid pc' (with_self m x).
Proof.
  unfold background_step. intros H.
  destruct (threads x !! tid) as [pc|] eqn:Hpc; [| done]. simpl in H.
  destruct (th_step pc (running x) (self x)) as [[pc' m]|] eqn:Hs; [| done].
  simpl in H. injection H as <-. by exists pc, pc', m.
Qed.

Lemma lifecycle_inv_initial : lifecycle_inv initial.
Proof. split; [done |]. simpl. intros _. constructor. Qed.

Lemma event_step_inv a x y :
  lifecycle_inv x -> ev_step a x = Some y -> lifecycle_inv y.
Proof.
  intros [Hlive Hq] H. unfold event_step in H.
  destruct (handler x) eqn:Hh; try done.
  destruct a; try done.
  - injection H as <-. split; [done |]. simpl. by rewrite Hh.
  - injection H as <-. split; [done |]. simpl. by rewrite Hh.
  - destruct (validate_entries py_float (self x)) as [[[[[sym up] lo]|]|e] m];
      injection H as <-; split; try done; simpl; by rewrite ?Hh.
  - injection H as <-. by split.
  - injection H as <-. by split.
Qed.

Lemma handler_step_inv x y :
  lifecycle_inv x -> handler_step x = Some y -> lifecycle_inv y.
Proof.
  intros [Hlive Hq] H. unfold handler_step in H.
  destruct (handler x) eqn:Hh; try done.
  - (* line 261 *)
    destruct (running x) eqn:Hr; injection H as <-; split; try done.
    simpl. by apply Hq.
  - (* line 263: launch *)
    injection H as <-. split; simpl; [| done].
    intros tid pc Hl Hpc.
    destruct (decide (tid < length (threads x))%nat) as [Hlt | Hge].
    + rewrite lookup_app_l in Hl by done.
      rewrite (all_finished_lookup x tid pc Hq Hl) in Hpc. done.
    + apply lookup_lt_Some in Hl as Hlen. rewrite length_app in Hlen.
      simpl in Hlen. f_equal. lia.
  - (* line 272 *)
    injection H as <-. by split.
  - (* lines 273 and 274 *)
    assert (all_finished y ∧ y = with_handler (resume k) x) as [Hall ->].
    { destruct (thread x) as [tid|] eqn:Ht.
      - destruct (threads x !! tid) as [[] |] eqn:Hl; try done.
        injection H as <-. split; [| done].
        apply Forall_lookup_2. intros i pc Hi. simpl in Hi.
        destruct (is_live pc) eqn:Hpc; [| done].
        specialize (Hlive i pc Hi Hpc). injection Hlive as ->.
        rewrite Hl in Hi. by injection Hi as <-.
      - injection H as <-. split; [| done].
        apply Forall_lookup_2. intros i pc Hi. simpl in Hi.
        destruct (is_live pc) eqn:Hpc; [| done].
        by specialize (Hlive i pc Hi Hpc). }
    split; [done |]. destruct k; simpl; try done; try intros _; exact Hall.
Qed.

Lemma background_step_inv tid x y :
  lifecycle_inv x -> bg_step tid x = Some y -> lifecycle_inv y.
Proof.
  intros [Hlive Hq] H.
  apply background_step_inv_eq in H as (pc & pc' & m & Hpc & Hs & ->).
  apply thread_step_live in Hs as Hl.
  assert (¬ all_finished x) as Hnot.
  { intros Hall. by rewrite (all_finished_lookup x tid pc Hall Hpc) in Hl. }
  split.
  - intros i pi Hi Hpi. simpl in Hi.
    destruct (decide (i = tid)) as [-> | Hne]; [by eapply Hlive |].
    rewrite list_lookup_insert_ne in Hi by done. by eapply Hlive.
  - simpl. destruct (handler x); try done; intros Hr; by destruct Hnot; apply Hq.
Qed.

Lemma step_inv a x y : lifecycle_inv x -> sys_step a x = Some y -> lifecycle_inv y.
Proof.
  intros Hx H. destruct a; simpl in H;
    eauto using event_step_inv, handler_step_inv, background_step_inv.
Qed.

Lemma run_inv acts x y : lifecycle_inv x -> sys_run acts x = Some y -> lifecycle_inv y.
Proof.
  revert x. induction acts as [|a acts IH]; intros x Hx H; simpl in H.
  - by injection H as <-.
  - destruct (sys_step a x) as [x'|] eqn:Hs; [| done]. simpl in H.
    eapply IH; [| done]. by eapply step_inv.
Qed.

Lemma reachable_inv acts x : sys_run acts initial = Some x -> lifecycle_inv x.
Proof. apply run_inv, lifecycle_inv_initial. Qed.

(** *** A finished thread never moves again *)

Lemma event_step_threads a x y :
  ev_step a x = Some y -> threads y = threads x ∧ running y = running x.
Proof.
  unfold event_step. intros H.
  destruct (handler x); try done.
  destruct a; try done; try (by injection H as <-).
  by destruct (validate_entries py_float (self x)) as [[[[[sym up] lo]|]|e] m];
    injection H as <-.
Qed.

Lemma handler_step_threads x y :
  handler_step x = Some y ->
  threads y = threads x ∨ threads y = threads x ++ [AtEntry].
Proof.
  unfold handler_step. intros H.
  destruct (handler x); try done.
  - destruct (running x); injection H as <-; by left.
  - injection H as <-. by right.
  - injection H as <-. by left.
  - destruct (thread x) as [tid|]; [| injection H as <-; by left].
    destruct (threads x !! tid) as [[] |]; try done. injection H as <-. by left.
Qed.

Lemma background_finished_disabled tid x :
  threads x !! tid = Some Finished -> bg_step tid x = None.
Proof. intros H. unfold background_step. by rewrite H. Qed.

Lemma step_keeps_finished a x y tid :
  sys_step a x = Some y ->
  threads x !! tid = Some Finished -> threads y !! tid = Some Finished.
Proof.
  intros H Hf.
  assert (ev_step a x = Some y -> threads y !! tid = Some Finished) as Hev.
  { intros He. apply event_step_threads in He as [-> _]. done. }
  destruct a; simpl in H; try by apply Hev.
  - apply handler_step_threads in H as [-> | ->]; [done |].
    by apply lookup_app_l_Some.
  - destruct (decide (tid0 = tid)) as [-> | Hne].
    + by rewrite background_finished_disabled in H.
    + apply background_step_inv_eq in H as (pc & pc' & m & _ & _ & ->).
      simpl. by rewrite list_lookup_insert_ne.
Qed.

Lemma step_threads_grow a x y :
  sys_step a x = Some y -> (length (threads x) <= length (threads y))%nat.
Proof.
  intros H. destruct a; simpl in H;
    try (apply event_step_threads in H as [-> _]; lia).
  - apply handler_step_threads in H as [-> | ->]; [lia |].
    rewrite length_app. lia.
  - apply background_step_inv_eq in H as (pc & pc' & m & _ & _ & ->).
    simpl. by rewrite length_insert.
Qed.

Lemma run_keeps_finished acts x y tid :
  sys_run acts x = Some y ->
  threads x !! tid = Some Finished -> threads y !! tid = Some Finished.
Proof.
  revert x. induction acts as [|a acts IH]; intros x H Hf; simpl in H.
  - by injection H as <-.
  - destruct (sys_step a x) as [x'|] eqn:Hs; [| done]. simpl in H.
    eapply IH; [done |]. by eapply step_keeps_finished.
Qed.

Lemma all_finished_lookup_lt x tid :
  all_finished x -> (tid < length (threads x))%nat ->
  threads x !! tid = Some Finished.
Proof.
  intros Hall Hlt. destruct (lookup_lt_is_Some_2 _ _ Hlt) as [pc Hpc].
  pose proof (all_finished_lookup x tid pc Hall Hpc). by destruct pc.
Qed.

(** Claim C1.  In every execution, at the moment [stop_monitoring] returns
    the flag [self.running] is down (line 272 has run before the join) and
    every thread started so far has finished; from then on none of these
    threads takes a step, so none of them fetches or writes to the price
    history. *)
Theorem stop_returns_after_cycle_exited (acts : list Action) (x x' : App)
    (k : Caller) :
  sys_run acts initial = Some x ->
  handler x = Stop273 k ->
  sys_step Handler x = Some x' ->
  running x' = false
  ∧ handler x' = resume k
  ∧ all_finished x'
  ∧ ∀ acts' y tid,
      sys_run acts' x' = Some y -> (tid < length (threads x'))%nat ->
      threads y !! tid = Some Finished
      ∧ sys_step (Background tid) y = None.
Proof.
  intros Hrun Hh Hstep.
  pose proof (reachable_inv acts x Hrun) as Hx.
  pose proof (step_inv Handler x x' Hx Hstep) as Hx'.
  destruct Hx as [_ Hq]. rewrite Hh in Hq.
  assert (x' = with_handler (resume k) x) as ->.
  { simpl in Hstep. unfold handler_step in Hstep. rewrite Hh in Hstep.
    destruct (thread x) as [tid|]; [| by injection Hstep as <-].
    destruct (threads x !! tid) as [[] |]; try done. by injection Hstep as <-. }
  assert (all_finished (with_handler (resume k) x)) as Hall.
  { destruct Hx' as [_ Hq']. simpl in Hq'.
    destruct k; simpl in Hq'; auto. simpl in Hstep.
    (* on_closing: the join has succeeded all the same *)
    destruct (handler_step_inv
                (with_handler (Stop273 FromButton) x)
                (with_handler InMainloop x)) as [_ Hq2].
    - split; [apply (reachable_inv acts x Hrun) | done].
    - unfold handler_step in *. simpl. rewrite Hh in Hstep.
      destruct (thread x) as [tid|]; [| done].
      by destruct (threads x !! tid) as [[] |].
    - by apply Hq2. }
  repeat split; try done.
  - eapply run_keeps_finished; [done |]. by apply all_finished_lookup_lt.
  - simpl. apply background_finished_disabled.
    eapply run_keeps_finished; [done |]. by apply all_finished_lookup_lt.
Qed.

(** Claim C2.  In every execution at most one thread running
    [monitoring_loop] is unfinished at any time.  Whenever
    [start_monitoring] is about to launch a thread (line 263) every thread
    started before has finished; and when it finds the flag up at line 261
    it goes through [stop_monitoring], whose return is the subject of
    [stop_returns_after_cycle_exited]. *)
Theorem at_most_one_cycle_active (acts : list Action) (x : App) :
  sys_run acts initial = Some x ->
  (∀ i j pi pj,
      threads x !! i = Some pi -> threads x !! j = Some pj ->
      is_live pi = true -> is_live pj = true -> i = j)
  ∧ (handler x = Start263 -> all_finished x)
  ∧ (handler x = Start261 -> running x = true ->
     handler_step x = Some (with_handler (Stop272 FromStart) x)).
Proof.
  intros Hrun. destruct (reachable_inv acts x Hrun) as [Hlive Hq].
  split; [| split].
  - intros i j pi pj Hi Hj Hli Hlj.
    pose proof (Hlive i pi Hi Hli) as H1.
    pose proof (Hlive j pj Hj Hlj) as H2. congruence.
  - intros Hh. by rewrite Hh in Hq.
  - intros Hh Hr. unfold handler_step. by rewrite Hh, Hr.
Qed.

End Lifecycle.

(** ** One cycle of the loop *)

Section Iteration.

Variable py_float : string -> option Q.
Variable py_int : string -> option Z.
Variable provider : string -> nat -> Response.
Variable smtp : nat -> SmtpOutcome.
Variable clock : Z -> option exn.

Local Abbreviation sys_run := (run py_float py_int provider smtp clock).
Local Abbreviation bg_step := (background_step py_int provider smtp clock).

Lemma fetch_price_frame symbol s :
  same_shown s (snd (fetch_price provider clock symbol s)).
Proof.
  unfold fetch_price. rewrite fetch_loop_eval. apply attempts_same_shown.
Qed.

Lemma fetch_price_ok symbol s :
  ∃ r, fst (fetch_price provider clock symbol s) = Ok r.
Proof. unfold fetch_price. rewrite fetch_loop_eval. by eexists. Qed.

(** The iteration is the fetch, then the rest of [update_data] with the
    status and the chart, then the sleep. *)
Lemma loop_body_split symbol interval s :
  loop_body provider smtp clock symbol interval s
  = (r ← fetch_price provider clock symbol;
     publish smtp symbol r;; sleep clock interval) s.
Proof.
  unfold loop_body, update_data, publish. rewrite !bind_eval.
  destruct (fetch_price provider clock symbol s) as [[r|e] s1]; [| done].
  rewrite !bind_eval.
  by destruct (process_quote smtp symbol r s1) as [[p|e] s2].
Qed.

Lemma background_step_eval tid x pc pc' m :
  threads x !! tid = Some pc ->
  thread_step py_int provider smtp clock pc (running x) (self x) = Some (pc', m) ->
  bg_step tid x = Some (with_thread_pc tid pc' (with_self m x)).
Proof. intros H1 H2. unfold background_step. rewrite H1. simpl. by rewrite H2. Qed.

(** Three steps of a thread that stands before the fetch are one
    iteration of the loop; the thread is back at the test of the flag. *)
Lemma iteration_steps x tid symbol interval :
  threads x !! tid = Some (InBody symbol interval) ->
  fst (loop_body provider smtp clock symbol interval (self x)) = Ok tt ->
  sys_run [Background tid; Background tid; Background tid] x
  = Some (with_thread_pc tid (AtWhile symbol interval)
            (with_self (snd (loop_body provider smtp clock symbol interval (self x))) x)).
Proof.
  intros Hpc Hok. rewrite loop_body_split in *. rewrite bind_eval in *.
  apply lookup_lt_Some in Hpc as Hlt.
  destruct (fetch_price_ok symbol (self x)) as [r Hr].
  destruct (fetch_price provider clock symbol (self x)) as [res s1] eqn:Hf.
  simpl in Hr. subst res. rewrite bind_eval in *.
  pose proof (publish_ok smtp symbol r s1) as Hp.
  destruct (publish smtp symbol r s1) as [res s2] eqn:Hpub.
  simpl in Hp. subst res.
  destruct (sleep clock interval s2) as [res s3] eqn:Hs. simpl in Hok. subst res.
  cbn [run step].
  rewrite (background_step_eval tid x _ (Fetched symbol interval r) s1 Hpc)
    by (simpl; by rewrite Hf).
  cbn [mbind option_bind].
  rewrite (background_step_eval tid _ (Fetched symbol interval r)
             (AtSleep symbol interval) s2);
    [| simpl; by apply list_lookup_insert_eq | simpl; by rewrite Hpub].
  cbn [mbind option_bind].
  rewrite (background_step_eval tid _ (AtSleep symbol interval)
             (AtWhile symbol interval) s3);
    [| simpl; apply list_lookup_insert_eq; by rewrite length_insert
     | simpl; by rewrite Hs].
  cbn [mbind option_bind mret option_ret]. f_equal.
  unfold with_thread_pc, with_self. simpl.
  by rewrite !list_insert_insert_eq.
Qed.



(** Claim C10.  A fetch that succeeds with a price equal to zero is handled
    like the unavailable result: after the fetch the rest of [update_data]
    does exactly what it does for [None], so the point is not appended, no
    threshold is tested, no alert is raised, [update_data] returns [None]
    and the status text is not updated in that cycle. *)
Theorem zero_price_is_treated_as_unavailable (symbol : string) (interval : Z)
    (ts : Timestamp) (p : Q) (s : Monitor) :
  fst (fetch_price provider clock symbol s) = Ok (Some (ts, p)) ->
  (p == 0)%Q ->
  let r := loop_body provider smtp clock symbol interval s in
  (∀ s1, process_quote smtp symbol (Some (ts, p)) s1
         = process_quote smtp symbol None s1)
  ∧ fst (update_data provider smtp clock symbol s) = Ok None
  ∧ r = sleep clock interval (snd (fetch_price provider clock symbol s))
  ∧ data (snd r) = data s
  ∧ alerts_list (snd r) = alerts_list s
  ∧ status_var (snd r) = status_var s
  ∧ chart (snd r) = chart s.
Proof.
  intros Hf Hp. cbn zeta.
  assert (truthy p = false) as Hfalsy.
  { unfold truthy. apply negb_false_iff. by apply Qeq_bool_iff. }
  assert (∀ s1, process_quote smtp symbol (Some (ts, p)) s1 = (Ok None, s1))
    as Hq by (intros s1; by apply process_quote_falsy).
  pose proof (loop_body_discarded provider smtp clock symbol interval s _ Hf Hq)
    as Hbody.
  destruct (fetch_price_frame symbol s) as (Hd & _ & _ & Ha & Hs & Hc & _).
  destruct (sleep_frame clock interval (snd (fetch_price provider clock symbol s)))
    as (Hd' & _ & _ & Ha' & Hs' & Hc' & _).
  split; [intros s1; by rewrite Hq |]. split.
  { unfold update_data. rewrite bind_eval.
    destruct (fetch_price provider clock symbol s) as [res s1].
    simpl in Hf. subst res. by rewrite Hq. }
  rewrite Hbody, Hd', Ha', Hs', Hc'. by repeat split.
Qed.

End Iteration.

(** ** The claims about alerts, at the level of the methods *)

(** Claim C8.  The mail step always returns normally: an exception of any
    stage of the SMTP session is caught and logged as an error, and it
    touches neither the list of alerts nor the history nor the status.
    Without an email configuration the step changes nothing at all.  The
    dispatch of an alert as a whole returns normally too, with the alert in
    the list and in the log whatever the SMTP server does, and the rest of
    the cycle never raises, so the thread goes on to its sleep. *)
Theorem email_failure_is_swallowed (smtp : nat -> SmtpOutcome)
    (symbol : string) (p : Q) (kind : ThresholdType) (bound : option Q)
    (r0 : option (Timestamp * Q)) (s : Monitor) :
  let mail := send_email_alert smtp symbol p kind s in
  let chk := check_threshold smtp symbol p kind bound s in
  fst mail = Ok tt
  ∧ same_but_mail s (snd mail)
  ∧ match email_config s, smtp_error (smtp (smtp_sessions s)) with
    | None, _ => snd mail = s
    | Some _, Some e => logger (snd mail) = logger s ++ [(ERROR, EmailFailedMsg e)]
    | Some _, None => logger (snd mail) = logger s ++ [(INFO, EmailSentMsg symbol)]
    end
  ∧ fst chk = Ok tt
  ∧ alerts_list (snd chk)
    = alerts_list s
      ++ (if fires kind p bound then [alert_for symbol p kind bound] else [])
  ∧ (if fires kind p bound
     then (INFO, AlertMsg (alert_for symbol p kind bound)) ∈ logger (snd chk)
     else snd chk = s)
  ∧ fst (publish smtp symbol r0 s) = Ok tt.
Proof.
  cbn zeta.
  destruct (send_email_alert_ok smtp symbol p kind s) as [Hok Hframe].
  destruct (check_threshold_eval smtp symbol p kind bound s)
    as (Hc & Ha & Hl & _).
  repeat split; try done; try apply Hframe; [| apply publish_ok].
  unfold send_email_alert, smtp_session. unfold_m.
  destruct (email_config s); [| done].
  by destruct (smtp (smtp_sessions s)).
Qed.

(** An unreachable SMTP host and a crossed upper threshold: the alert is in
    the list and in the log, the failure is logged after it. *)
Example unreachable_smtp_example :
  let s := set_email_config (Some example_email)
             (set_thresholds
                <["AAPL" := {| th_upper := Some 90%Q; th_lower := None |}]>
                new_monitor) in
  let r := update_data (scripted [RespTable [(1, 100%Q)]]) smtp_down
      steady_clock "AAPL" s in
  let a := {| al_symbol := "AAPL"; al_price := 100%Q; al_kind := upper_kind;
              al_bound := 90%Q |} in
  fst r = Ok (Some 100%Q)
  ∧ alerts_list (snd r) = [a]
  ∧ logger (snd r)
    = [(INFO, AlertMsg a);
       (ERROR, EmailFailedMsg (SMTPException "connection refused"))]
  ∧ outbox (snd r) = [].
Proof. vm_compute. by repeat split. Qed.

(** Claim C3, where the code departs from it.  With an upper threshold of
    zero stored for the symbol and a fetched price of 5, the threshold is
    set and the price is above it, yet [update_data] stores the point and
    raises no alert and writes no log entry. *)
Theorem zero_upper_threshold_does_not_fire :
  let r := update_data (scripted [RespTable [(1, 5%Q)]]) smtp_up steady_clock "AAPL"
             zero_upper_monitor in
  set_and_crossed_spec upper_kind 5
    (thresholds zero_upper_monitor !! "AAPL" ≫= th_upper) = true
  ∧ fst r = Ok (Some 5%Q)
  ∧ data (snd r) !! "AAPL" = Some [{| timestamp := 1; price := 5%Q |}]
  ∧ alerts_list (snd r) = []
  ∧ logger (snd r) = [].
Proof. vm_compute. by repeat split. Qed.

(** The three examples of the specification, with thresholds other than
    zero, come out as it says. *)
Example threshold_examples :
  (fires upper_kind 100 (Some 90%Q), fires lower_kind 100 None) = (true, false)
  ∧ (fires upper_kind 80 (Some 90%Q), fires lower_kind 80 (Some 85%Q)) = (false, true)
  ∧ (fires upper_kind 87 (Some 90%Q), fires lower_kind 87 (Some 85%Q)) = (false, false).
Proof. by repeat split. Qed.

(** ** Validation in [start_monitoring] *)

Section Validation.

Variable py_float : string -> option Q.
Variable py_int : string -> option Z.
Variable provider : string -> nat -> Response.
Variable smtp : nat -> SmtpOutcome.
Variable clock : Z -> option exn.

Lemma read_threshold_eval text s :
  read_threshold py_float text s
  = if decide (text = EmptyString) then (Ok None, s)
    else match py_float text with
         | Some v => (Ok (Some v), s)
         | None => (Raised (ValueError "could not convert string to float"), s)
         end.
Proof.
  unfold read_threshold. destruct (decide (text = EmptyString)); [done |].
  by destruct (py_float text).
Qed.

Lemma rejects_empty_symbol s :
  upper (symbol_entry (entries s)) = EmptyString ->
  validate_entries py_float s
  = (Ok None, showerror "Please enter a stock symbol" s).
Proof.
  intros H. unfold validate_entries. rewrite gets_bind.
  by destruct (decide (upper (symbol_entry (entries s)) = EmptyString)).
Qed.

Lemma rejects_non_numeric s :
  upper (symbol_entry (entries s)) ≠ EmptyString ->
  non_numeric py_float (upper_entry (entries s))
  ∨ non_numeric py_float (lower_entry (entries s)) ->
  validate_entries py_float s
  = (Ok None, showerror "Thresholds must be valid numbers" s).
Proof.
  intros Hsym Hbad. unfold validate_entries. rewrite gets_bind.
  destruct (decide (upper (symbol_entry (entries s)) = EmptyString)); [done |].
  unfold try_except. rewrite bind_eval, read_threshold_eval.
  destruct (decide (upper_entry (entries s) = EmptyString)) as [Hu | Hu].
  - destruct Hbad as [[? _] | [Hl Hn]]; [done |].
    rewrite bind_eval, read_threshold_eval.
    destruct (decide (lower_entry (entries s) = EmptyString)); [done |]. by rewrite Hn.
  - destruct (py_float (upper_entry (entries s))) as [u|] eqn:Hpu; [| done].
    destruct Hbad as [[_ Hn] | [Hl Hn]]; [congruence |].
    rewrite bind_eval, read_threshold_eval.
    destruct (decide (lower_entry (entries s) = EmptyString)); [done |]. by rewrite Hn.
Qed.

(** The test of line 253 rejects an upper bound at or below the lower one
    when neither bound is zero. *)
Lemma rejects_inverted_bounds s up lo :
  upper (symbol_entry (entries s)) ≠ EmptyString ->
  upper_entry (entries s) ≠ EmptyString -> lower_entry (entries s) ≠ EmptyString ->
  py_float (upper_entry (entries s)) = Some up ->
  py_float (lower_entry (entries s)) = Some lo ->
  ¬ (up == 0)%Q -> ¬ (lo == 0)%Q -> (up <= lo)%Q ->
  validate_entries py_float s
  = (Ok None,
     showerror "Upper threshold must be greater than lower threshold" s).
Proof.
  intros Hsym Hu Hl Hpu Hpl Hu0 Hl0 Hle.
  unfold validate_entries. rewrite gets_bind.
  destruct (decide (upper (symbol_entry (entries s)) = EmptyString)); [done |].
  unfold try_except. rewrite bind_eval, read_threshold_eval.
  destruct (decide (upper_entry (entries s) = EmptyString)); [done |]. rewrite Hpu.
  rewrite bind_eval, read_threshold_eval.
  destruct (decide (lower_entry (entries s) = EmptyString)); [done |]. rewrite Hpl.
  simpl. apply truthy_iff in Hu0, Hl0. rewrite Hu0, Hl0.
  apply Qle_bool_iff in Hle. by rewrite Hle.
Qed.

(** A rejected start shows its dialog and nothing else: the thresholds,
    the flag, the threads and the handler are as before. *)
Lemma rejected_start_mutates_nothing x text :
  handler x = InMainloop ->
  validate_entries py_float (self x) = (Ok None, showerror text (self x)) ->
  step py_float py_int provider smtp clock ClickStart x
  = Some (with_self (showerror text (self x)) x).
Proof. intros Hh Hv. simpl. unfold event_step. by rewrite Hh, Hv. Qed.

End Validation.

(** Claim C4, where the code departs from it.  With the upper entry "0" and
    the lower entry "5" both thresholds are present and the upper one is
    below the lower one, yet [start_monitoring] shows no error dialog: it
    stores the pair, raises the flag and launches the thread. *)
Theorem zero_upper_below_lower_is_accepted :
  ∃ y, run digits_float digits_int one_quote smtp_up steady_clock
         [ClickStart; Handler; Handler] zero_upper_entries = Some y
       ∧ thresholds (self y) !! "AAPL"
         = Some {| th_upper := Some 0%Q; th_lower := Some 5%Q |}
       ∧ running y = true
       ∧ threads y = [AtEntry]
       ∧ dialogs (self y) = [].
Proof. eexists. split; [reflexivity |]. vm_compute. by repeat split. Qed.

(** The example of the specification, upper 10 and lower 20, is rejected
    and leaves the monitor idle. *)
Example inverted_bounds_example :
  let x := with_self (set_entries (typed "AAPL" "10" "20" "60") new_monitor)
             initial in
  ∃ y, step digits_float digits_int one_quote smtp_up steady_clock ClickStart x = Some y
       ∧ handler y = InMainloop ∧ running y = false ∧ threads y = []
       ∧ thresholds (self y) = ∅
       ∧ dialogs (self y)
         = ["Upper threshold must be greater than lower threshold"].
Proof. eexists. split; [reflexivity |]. by repeat split. Qed.

(** ** The theorems at concrete executions *)

Lemma stop_returns_after_cycle_exited_witness :
  let x := at_join in
  let x' := with_handler InMainloop at_join in
  running x' = false
  ∧ handler x' = resume FromButton
  ∧ all_finished x'
  ∧ ∀ acts' y tid,
      run digits_float digits_int one_quote smtp_up steady_clock acts' x' = Some y ->
      (tid < length (threads x'))%nat ->
      threads y !! tid = Some Finished
      ∧ step digits_float digits_int one_quote smtp_up
          steady_clock (Background tid) y = None.
Proof.
  apply (stop_returns_after_cycle_exited digits_float digits_int one_quote
           smtp_up
               steady_clock start_then_stop at_join (with_handler InMainloop at_join)
           FromButton).
  - vm_compute. reflexivity.
  - vm_compute. reflexivity.
  - vm_compute. reflexivity.
Defined.

Lemma at_most_one_cycle_active_witness :
  let x := restarted in
  (∀ i j pi pj,
      threads x !! i = Some pi -> threads x !! j = Some pj ->
      is_live pi = true -> is_live pj = true -> i = j)
  ∧ (handler x = Start263 -> all_finished x)
  ∧ (handler x = Start261 -> running x = true ->
     handler_step x = Some (with_handler (Stop272 FromStart) x)).
Proof.
  apply (at_most_one_cycle_active digits_float digits_int one_quote smtp_up steady_clock
           start_then_start restarted).
  vm_compute. reflexivity.
Defined.

(** The two executions: the point written by the stopped thread is in the
    history before [stop_monitoring] returns; after the second start the
    first thread has finished and the second is the only one alive. *)
Example executions_example :
  data (self at_join) !! "AAPL" = Some [{| timestamp := 1; price := 150%Q |}]
  ∧ handler at_join = Stop273 FromButton
  ∧ threads at_join = [Finished]
  ∧ threads restarted = [Finished; AtEntry]
  ∧ running restarted = true
  ∧ thread restarted = Some 1%nat.
Proof. vm_compute. by repeat split. Qed.



Lemma zero_price_is_treated_as_unavailable_witness :
  let provider := scripted [RespTable [(1, 0%Q)]] in
  let r := loop_body provider smtp_up steady_clock "AAPL" 60 new_monitor in
  (∀ s1, process_quote smtp_up "AAPL" (Some (1, 0%Q)) s1
         = process_quote smtp_up "AAPL" None s1)
  ∧ fst (update_data provider smtp_up steady_clock "AAPL" new_monitor) = Ok None
  ∧ r = sleep
      steady_clock 60 (snd (fetch_price provider steady_clock "AAPL" new_monitor))
  ∧ data (snd r) = data new_monitor
  ∧ alerts_list (snd r) = alerts_list new_monitor
  ∧ status_var (snd r) = status_var new_monitor
  ∧ chart (snd r) = chart new_monitor.
Proof.
  apply (zero_price_is_treated_as_unavailable (scripted [RespTable [(1, 0%Q)]])
           smtp_up steady_clock "AAPL" 60 1 0%Q new_monitor).
  - reflexivity.
  - reflexivity.
Defined.

(** * Further properties of the class *)

(** ** [fetch_price]: when it gives up, and how long it sleeps *)

Lemma first_quote_None rs :
  first_quote rs = None <-> Forall (λ a, quote_of a = None) rs.
Proof.
  induction rs as [|a rs IH]; simpl.
  - split; [constructor | done].
  - destruct (quote_of a) eqn:Ha.
    + split; [done |]. intros H. apply Forall_cons in H as [H _]. congruence.
    + rewrite IH. split; [by constructor |].
      intros H. by apply Forall_cons in H as [_ H].
Qed.

Lemma length_consumed_quote rs :
  match first_quote rs with
  | None => consumed rs = rs
  | Some _ => (1 <= length (consumed rs))%nat
  end.
Proof.
  induction rs as [|a rs IH]; simpl; [done |].
  destruct (quote_of a); simpl; [lia |].
  destruct (first_quote rs); [lia | by rewrite IH].
Qed.

Lemma length_raised_in rs : (length (raised_in rs) <= length rs)%nat.
Proof.
  induction rs as [|a rs IH]; simpl; [lia |].
  unfold raised_in in *. simpl. destruct a; simpl; lia.
Qed.

(** Property X1.  [fetch_price] gives up exactly when none of the three answers carries a
    quote, and it has then made three requests; when it returns a quote it
    has made between one and three.  Whatever the answers, it sleeps [k]
    times two seconds with [k <= 3], six seconds at most. *)
Theorem fetch_gives_up_after_three (provider : string -> nat -> Response)
    (clock : Z -> option exn) (symbol : string) (s : Monitor) :
  let r := fetch_price provider clock symbol s in
  (fst r = Ok None
   <-> Forall (λ a, quote_of a = None) (answers provider symbol s))
  ∧ match fst r with
    | Ok None => requests (snd r) = (requests s + 3)%nat
    | _ => (requests s < requests (snd r) <= requests s + 3)%nat
    end
  ∧ ∃ k, (k <= 3)%nat ∧ slept (snd r) = slept s ++ replicate k 2.
Proof.
  cbn zeta. unfold fetch_price.
  pose proof (fetch_loop_eval provider clock 3 symbol s) as H. cbv zeta in H.
  change (provider symbol <$> seq (requests s) 3)
    with (answers provider symbol s) in H.
  assert (length (answers provider symbol s) = 3%nat) as Hlen
    by (unfold answers; by rewrite length_fmap, length_seq).
  rewrite H. clear H. cbn [fst snd].
  generalize dependent (answers provider symbol s). intros rs Hlen.
  pose proof (length_consumed rs) as Hle.
  pose proof (length_consumed_quote rs) as Hq.
  split; [| split].
  - rewrite <- first_quote_None. split; [by intros [= ->] | by intros ->].
  - rewrite attempts_requests.
    destruct (first_quote rs); [lia |]. by rewrite Hq, Hlen.
  - exists (length (raised_in (consumed rs))).
    split; [| apply attempts_slept].
    etrans; [apply length_raised_in | lia].
Qed.

(** ** [update_data]: what a stored point looks like *)

Lemma last_tail_snoc {A} n (l : list A) x :
  (1 <= n)%nat -> last (tail n (l ++ [x])) = Some x.
Proof.
  intros Hn. unfold tail. rewrite length_app. simpl.
  rewrite drop_app_le by lia. apply last_snoc.
Qed.

(** Property X2.  When the fetch returns a quote with a price other than zero,
    [update_data] returns that price, the history of the symbol is the old
    one with the new point at its end, cut to the last 50, and the
    histories of all other symbols are as they were. *)
Theorem update_data_stores_point (provider : string -> nat -> Response)
    (smtp : nat -> SmtpOutcome) (clock : Z -> option exn) (symbol : string)
    (ts : Timestamp) (p : Q) (s : Monitor) :
  fst (fetch_price provider clock symbol s) = Ok (Some (ts, p)) ->
  truthy p = true ->
  let r := update_data provider smtp clock symbol s in
  let pt := {| timestamp := ts; price := p |} in
  fst r = Ok (Some p)
  ∧ data (snd r) !! symbol = Some (tail 50 (default [] (data s !! symbol) ++ [pt]))
  ∧ (default [] (data (snd r) !! symbol)) !! 0%nat ≠ None
  ∧ last (default [] (data (snd r) !! symbol)) = Some pt
  ∧ ∀ other, other ≠ symbol -> data (snd r) !! other = data s !! other.
Proof.
  intros Hf Hp. cbn zeta. unfold update_data. rewrite bind_eval.
  destruct (fetch_price_frame provider clock symbol s) as (Hd & _).
  destruct (fetch_price provider clock symbol s) as [res s1]. simpl in Hf, Hd.
  subst res.
  destruct (process_quote_eval smtp symbol ts p s1 Hp) as (Hok & Hdata & _).
  rewrite Hok, Hdata, Hd. unfold append_point. rewrite lookup_insert_eq.
  cbn [default]. repeat split; try done.
  - pose proof (last_tail_snoc 50 (default [] (data s !! symbol))
                  {| timestamp := ts; price := p |}) as Hl.
    destruct (tail 50 _) as [|a l]; [| done]. simpl in Hl. by specialize (Hl ltac:(lia)).
  - apply last_tail_snoc. lia.
  - intros other Hne. by rewrite lookup_insert_ne.
Qed.

(** ** Alerts are raised again in every cycle *)

Section MoreAlerts.

Variable smtp : nat -> SmtpOutcome.

Lemma process_quote_alerts symbol ts p s :
  truthy p = true ->
  let r := process_quote smtp symbol (Some (ts, p)) s in
  alerts_list (snd r)
  = alerts_list s ++ crossings symbol p (thresholds s !! symbol)
  ∧ thresholds (snd r) = thresholds s.
Proof.
  intros Hp.
  destruct (process_quote_eval smtp symbol ts p s Hp)
    as (_ & _ & Ha & _ & Ht & _).
  by split.
Qed.

(** Property X3.  The threshold test keeps no memory: a price that crosses a threshold
    in two cycles in a row raises the same alerts twice, the second time
    after the first. *)
Theorem repeated_crossing_alerts_again (symbol : string)
    (ts1 ts2 : Timestamp) (p : Q) (s : Monitor) :
  truthy p = true ->
  let s1 := snd (process_quote smtp symbol (Some (ts1, p)) s) in
  let s2 := snd (process_quote smtp symbol (Some (ts2, p)) s1) in
  let raised := crossings symbol p (thresholds s !! symbol) in
  alerts_list s1 = alerts_list s ++ raised
  ∧ alerts_list s2 = alerts_list s ++ raised ++ raised.
Proof.
  intros Hp. cbn zeta.
  destruct (process_quote_alerts symbol ts1 p s Hp) as [Ha1 Ht1].
  destruct (process_quote_alerts symbol ts2 p
              (snd (process_quote smtp symbol (Some (ts1, p)) s)) Hp)
    as [Ha2 _].
  split; [done |]. by rewrite Ha2, Ha1, Ht1, <- app_assoc.
Qed.

(** ** Mail *)

Lemma send_email_alert_sessions symbol p kind s :
  let r := send_email_alert smtp symbol p kind s in
  smtp_sessions (snd r)
  = (smtp_sessions s + if email_config s is Some _ then 1 else 0)%nat
  ∧ outbox (snd r)
    = outbox s
      ++ match email_config s with
         | Some c =>
             if handed_over (smtp (smtp_sessions s))
             then [mail_of c symbol p kind] else []
         | None => []
         end.
Proof.
  unfold send_email_alert, smtp_session, mail_of. unfold_m.
  destruct (email_config s) as [c|]; simpl.
  - destruct (smtp (smtp_sessions s)); simpl;
      rewrite ?app_nil_r; split; try done; lia.
  - rewrite app_nil_r. split; [lia | done].
Qed.

(** Property X4.  With a configuration saved from the dialog, every alert opens one
    SMTP session; the message goes from the saved sender to the saved
    receiver and is in the outbox exactly when [send_message] has returned,
    also when leaving the session then fails, which is logged as a failed
    send. *)
Theorem saved_configuration_is_used (py_float : string -> option Q)
    (py_int : string -> option Z) (provider : string -> nat -> Response)
    (clock : Z -> option exn) (c : EmailConfig) (symbol : string) (p : Q) (kind : ThresholdType)
    (x : App) :
  handler x = InMainloop ->
  ∃ y, step py_float py_int provider smtp clock (SaveEmail c) x = Some y
       ∧ email_config (self y) = Some c
       ∧ let r := send_email_alert smtp symbol p kind (self y) in
         let o := smtp (smtp_sessions (self x)) in
         smtp_sessions (snd r) = S (smtp_sessions (self x))
         ∧ outbox (snd r)
           = outbox (self x)
             ++ (if handed_over o then [mail_of c symbol p kind] else [])
         ∧ logger (snd r)
           = logger (self x)
             ++ [match smtp_error o with
                 | Some e => (ERROR, EmailFailedMsg e)
                 | None => (INFO, EmailSentMsg symbol)
                 end].
Proof.
  intros Hh. eexists. split; [simpl; unfold event_step; by rewrite Hh |].
  split; [done |]. cbn zeta. cbn [self with_self].
  pose proof (send_email_alert_sessions symbol p kind
                (set_email_config (Some c) (self x)))
    as [Hs Ho].
  simpl in Hs, Ho. split; [rewrite Hs; lia |]. split; [exact Ho |].
  unfold send_email_alert, smtp_session. unfold_m. simpl.
  by destruct (smtp (smtp_sessions (self x))).
Qed.

End MoreAlerts.

Section MailCount.

Variable smtp : nat -> SmtpOutcome.

Lemma check_threshold_mail symbol p kind bound s :
  let r := check_threshold smtp symbol p kind bound s in
  let n := if fires kind p bound
           then (if email_config s is Some _ then 1 else 0)%nat else 0%nat in
  smtp_sessions (snd r) = (smtp_sessions s + n)%nat
  ∧ (length (outbox (snd r)) <= length (outbox s) + n)%nat.
Proof.
  unfold check_threshold, fires.
  destruct bound as [b|]; simpl; [| lia].
  destruct (truthy b && crossed kind p b); simpl; [| lia].
  rewrite !modify_bind.
  match goal with
  | |- context [send_email_alert smtp symbol p kind ?m] =>
      destruct (send_email_alert_sessions smtp symbol p kind m) as [Hs Ho];
      destruct (send_email_alert smtp symbol p kind m) as [res s']
  end.
  simpl in *. rewrite Hs, Ho, length_app. split; [done |].
  destruct (email_config s); [| simpl; lia].
  destruct (handed_over _); simpl; lia.
Qed.

(** Property X5.  The rest of [update_data] opens one SMTP session for every alert it
    raises when a configuration is saved, and none otherwise: a quote that
    crosses no threshold, a price of zero and an unavailable fetch open no
    session and add nothing to the outbox. *)
Theorem no_mail_without_alert (symbol : string)
    (r0 : option (Timestamp * Q)) (s : Monitor) :
  let r := process_quote smtp symbol r0 s in
  let n := match email_config s, r0 with
           | Some _, Some (_, p) =>
               if truthy p
               then length (crossings symbol p (thresholds s !! symbol))
               else 0%nat
           | _, _ => 0%nat
           end in
  smtp_sessions (snd r) = (smtp_sessions s + n)%nat
  ∧ (length (outbox (snd r)) <= length (outbox s) + n)%nat.
Proof.
  cbn zeta. destruct r0 as [[ts p]|]; [| destruct (email_config s); simpl; lia].
  destruct (truthy p) eqn:Hp;
    [| rewrite process_quote_falsy by done; destruct (email_config s); simpl; lia].
  unfold process_quote, crossings. rewrite Hp.
  rewrite modify_bind, gets_bind. cbn [thresholds set_data].
  set (s1 := set_data _ s).
  set (up := thresholds s !! symbol ≫= th_upper).
  set (lo := thresholds s !! symbol ≫= th_lower).
  rewrite bind_eval.
  destruct (check_threshold_mail symbol p upper_kind up s1) as [Hs1 Ho1].
  destruct (check_threshold_eval smtp symbol p upper_kind up s1)
    as (Hok1 & _ & _ & _ & _ & _ & He1 & _).
  destruct (check_threshold smtp symbol p upper_kind up s1) as [res1 s2].
  simpl in Hok1, Hs1, Ho1, He1. subst res1.
  rewrite bind_eval.
  destruct (check_threshold_mail symbol p lower_kind lo s2) as [Hs2 Ho2].
  destruct (check_threshold_eval smtp symbol p lower_kind lo s2)
    as (Hok2 & _).
  destruct (check_threshold smtp symbol p lower_kind lo s2) as [res2 s3].
  simpl in Hok2, Hs2, Ho2. subst res2.
  rewrite ret_eval. cbn [fst snd]. rewrite He1 in *.
  rewrite length_app.
  destruct (email_config s); destruct (fires upper_kind p up);
    destruct (fires lower_kind p lo); simpl in *; lia.
Qed.

End MailCount.

(** ** [update_chart] *)

(** Property X6.  [update_chart] returns without drawing when the symbol has no history
    or an empty one.  Otherwise it plots the whole history, a moving
    average aligned with it whose first four positions are undefined, and
    a line for each threshold other than zero. *)
Theorem update_chart_draws_history (symbol : string) (s : Monitor) :
  let r := update_chart symbol s in
  fst r = Ok tt
  ∧ match data s !! symbol with
    | None | Some [] => snd r = s
    | Some df =>
        ∃ c, chart (snd r) = Some c
             ∧ ch_symbol c = symbol
             ∧ ch_points c = df
             ∧ length (ch_ma c) = length df
             ∧ take 4 (ch_ma c) = replicate (length df `min` 4) None
             ∧ ch_upper_line c
               = (if opt_truthy (thresholds s !! symbol ≫= th_upper)
                  then thresholds s !! symbol ≫= th_upper else None)
             ∧ ch_lower_line c
               = (if opt_truthy (thresholds s !! symbol ≫= th_lower)
                  then thresholds s !! symbol ≫= th_lower else None)
    end.
Proof.
  cbn zeta. unfold update_chart. rewrite gets_bind.
  destruct (data s !! symbol) as [[|pt df]|]; try done.
  rewrite gets_bind. split; [done |]. eexists. split; [reflexivity |].
  cbn [ch_symbol ch_points ch_ma ch_upper_line ch_lower_line].
  set (values := price <$> pt :: df).
  assert (length values = length (pt :: df)) as Hlen
    by (unfold values; by rewrite length_fmap).
  repeat split; try done.
  - by rewrite length_rolling_mean, Hlen by lia.
  - apply list_eq. intros i.
    destruct (decide (i < length values `min` 4)%nat) as [Hi | Hi].
    + rewrite lookup_take_lt by lia.
      rewrite <- Hlen, lookup_replicate_2 by done.
      destruct (rolling_mean_trailing 5 values i) as (o & -> & Ho); [lia | lia |].
      unfold trailing_mean_spec in Ho.
      replace (5 <=? i + 1)%nat with false in Ho
        by (symmetry; apply Nat.leb_gt; lia).
      by destruct o.
    + rewrite <- Hlen.
      rewrite (proj1 (lookup_replicate_None _ None i)) by lia.
      apply lookup_ge_None. rewrite length_take, length_rolling_mean by lia.
      lia.
Qed.

(** ** Validation, once more *)

Lemma upper_ascii_idem c : upper_ascii (upper_ascii c) = upper_ascii c.
Proof. destruct c as [[] [] [] [] [] [] [] []]; reflexivity. Qed.

Lemma upper_idem s : upper (upper s) = upper s.
Proof.
  induction s as [|c s IH]; simpl; [done |].
  by rewrite upper_ascii_idem, IH.
Qed.

Lemma read_threshold_cases py_float text s :
  match fst (read_threshold py_float text s) with
  | Ok o => o = (if decide (text = EmptyString) then None else py_float text)
  | Raised (ValueError _) => True
  | Raised _ => False
  end
  ∧ snd (read_threshold py_float text s) = s.
Proof.
  rewrite read_threshold_eval.
  destruct (decide (text = EmptyString)); [done |].
  by destruct (py_float text).
Qed.

(** The three outcomes of lines 245 to 258. *)
Lemma validate_entries_cases py_float s :
  let v := validate_entries py_float s in
  match fst v with
  | Ok (Some (sym, up, lo)) =>
      snd v = s
      ∧ sym = upper (symbol_entry (entries s))
      ∧ sym ≠ EmptyString
      ∧ pair_ok {| th_upper := up; th_lower := lo |}
  | Ok None => ∃ text, snd v = showerror text s
  | Raised _ => False
  end.
Proof.
  cbn zeta. unfold validate_entries. rewrite gets_bind.
  destruct (decide (upper (symbol_entry (entries s)) = EmptyString)) as [He | Hne].
  { rewrite modify_bind, ret_eval. simpl. by eexists. }
  unfold try_except. rewrite bind_eval.
  destruct (read_threshold_cases py_float (upper_entry (entries s)) s) as [Hu Hsu].
  destruct (read_threshold py_float (upper_entry (entries s)) s) as [[up|e] s1];
    simpl in Hu, Hsu; subst s1.
  - rewrite bind_eval.
    destruct (read_threshold_cases py_float (lower_entry (entries s)) s) as [Hl Hsl].
    destruct (read_threshold py_float (lower_entry (entries s)) s) as [[lo|e] s1];
      simpl in Hl, Hsl; subst s1.
    + destruct (opt_truthy up && opt_truthy lo
                && Qle_bool (default 0%Q up) (default 0%Q lo)) eqn:Hc.
      * rewrite modify_bind, ret_eval. simpl. by eexists.
      * rewrite ret_eval. simpl. by repeat split.
    + destruct e; try done. rewrite modify_bind, ret_eval. simpl. by eexists.
  - destruct e; try done. rewrite modify_bind, ret_eval. simpl. by eexists.
Qed.

(** Property X7.  Pressing the start button never raises and is always possible from the
    idle main loop.  A rejected start differs from the state before by one
    error dialog only.  An accepted one goes on with a symbol that is not
    empty and in upper case and with bounds that line 253 lets through,
    and has changed nothing but the thresholds of that symbol. *)
Theorem start_button_validates (py_float : string -> option Q)
    (py_int : string -> option Z) (provider : string -> nat -> Response)
    (smtp : nat -> SmtpOutcome) (clock : Z -> option exn) (x : App) :
  handler x = InMainloop ->
  ∃ y, step py_float py_int provider smtp clock ClickStart x = Some y
       ∧ running y = running x ∧ threads y = threads x ∧ thread y = thread x
       ∧ data (self y) = data (self x)
       ∧ match handler y with
         | InMainloop =>
             ∃ text, self y = showerror text (self x)
         | Start261 =>
             ∃ sym th,
               self y = set_thresholds <[sym := th]> (self x)
               ∧ symbol_ok sym ∧ pair_ok th
               ∧ sym = upper (symbol_entry (entries (self x)))
         | _ => False
         end.
Proof.
  intros Hh. simpl. unfold event_step. rewrite Hh.
  pose proof (validate_entries_cases py_float (self x)) as Hv. cbn zeta in Hv.
  destruct (validate_entries py_float (self x)) as [[[[[sym up] lo]|]|e] m];
    simpl in Hv; [| | done].
  - destruct Hv as (-> & Hsym & Hne & Hok).
    eexists. split; [done |]. simpl. split_and!; try done.
    eexists _, _. split_and!; try done.
    subst sym. split; [done | apply upper_idem].
  - destruct Hv as [text ->].
    eexists. split; [done |]. simpl. split_and!; try done.
    rewrite Hh. by eexists.
Qed.

(** ** What the store holds in every state *)

Section Store.

Variable py_float : string -> option Q.
Variable py_int : string -> option Z.
Variable provider : string -> nat -> Response.
Variable smtp : nat -> SmtpOutcome.
Variable clock : Z -> option exn.

Local Abbreviation sys_step := (step py_float py_int provider smtp clock).
Local Abbreviation sys_run := (run py_float py_int provider smtp clock).
Local Abbreviation bg_step := (background_step py_int provider smtp clock).
Local Abbreviation th_step := (thread_step py_int provider smtp clock).
Local Abbreviation ev_step := (event_step py_float).

Lemma update_chart_store symbol s :
  thresholds (snd (update_chart symbol s)) = thresholds s
  ∧ data (snd (update_chart symbol s)) = data s.
Proof.
  unfold update_chart. rewrite gets_bind.
  by destruct (data s !! symbol) as [[|pt df]|].
Qed.

Lemma publish_store symbol r s :
  thresholds (snd (publish smtp symbol r s)) = thresholds s
  ∧ data (snd (publish smtp symbol r s))
    = match r with
      | Some (ts, p) =>
          if truthy p
          then append_point {| timestamp := ts; price := p |} (data s) symbol
          else data s
      | None => data s
      end.
Proof.
  unfold publish. rewrite bind_eval.
  destruct r as [[ts p]|]; [| done].
  destruct (truthy p) eqn:Hp; [| by rewrite process_quote_falsy].
  destruct (process_quote_eval smtp symbol ts p s Hp)
    as (Hok & Hd & _ & _ & Ht & _).
  destruct (process_quote smtp symbol (Some (ts, p)) s) as [res s1].
  simpl in Hok, Hd, Ht. subst res. simpl. rewrite Hp, modify_bind.
  destruct (update_chart_store symbol
              (set_status (StatusMonitoring symbol p) s1)) as [-> ->].
  by simpl.
Qed.

Lemma history_ok_append h pt :
  h = [] ∨ history_ok h -> truthy (price pt) = true ->
  history_ok (tail 50 (h ++ [pt])).
Proof.
  intros Hh Hp. split; [| split].
  - intros Hnil. pose proof (last_tail_snoc 50 h pt ltac:(lia)) as Hl.
    by rewrite Hnil in Hl.
  - rewrite length_tail. lia.
  - unfold tail. apply Forall_drop, Forall_app. split; [| by constructor].
    destruct Hh as [-> | (_ & _ & H)]; [constructor | done].
Qed.

Lemma store_inv_initial : store_inv initial.
Proof. split; [| split]; try done; by constructor. Qed.

Lemma event_step_store a x y : store_inv x -> ev_step a x = Some y -> store_inv y.
Proof.
  intros (Ht & Hd & Hp) H. unfold event_step in H.
  destruct (handler x) eqn:Hh; try done.
  destruct a; try done; try (by injection H as <-).
  pose proof (validate_entries_cases py_float (self x)) as Hv. cbn zeta in Hv.
  destruct (validate_entries py_float (self x)) as [[[[[sym up] lo]|]|e] m];
    simpl in Hv; injection H as <-; [| | done].
  - destruct Hv as (-> & Hsym & Hne & Hok). split; [| by split].
    intros sym' th Hl. simpl in Hl.
    destruct (decide (sym = sym')) as [<- | Hneq].
    + rewrite lookup_insert_eq in Hl. injection Hl as <-.
      split; [| done]. split; [done |]. subst sym. apply upper_idem.
    + rewrite lookup_insert_ne in Hl by done. by apply Ht.
  - destruct Hv as [text ->]. by split.
Qed.

Lemma handler_step_store x y : store_inv x -> handler_step x = Some y -> store_inv y.
Proof.
  intros (Ht & Hd & Hp) H. unfold handler_step in H.
  destruct (handler x); try done.
  - by destruct (running x); injection H as <-.
  - injection H as <-. split; [done |]. split; [done |]. simpl.
    apply Forall_app. split; [done |]. by constructor.
  - by injection H as <-.
  - destruct (thread x) as [tid|]; [| by injection H as <-].
    destruct (threads x !! tid) as [[] |]; try done. by injection H as <-.
Qed.

(** One step of a thread: the thresholds stay, the histories stay or one
    of them gets one more point with a price other than zero, under a
    symbol that is not empty and in upper case. *)
Lemma thread_step_store pc flag m pc' m' :
  th_step pc flag m = Some (pc', m') -> pc_ok pc ->
  pc_ok pc'
  ∧ thresholds m' = thresholds m
  ∧ (data m' = data m
     ∨ ∃ sym pt, symbol_ok sym ∧ truthy (price pt) = true
                 ∧ data m' = append_point pt (data m) sym).
Proof.
  intros H Hpc. destruct pc; simpl in H.
  - destruct (py_int (interval_var (entries m))); injection H as <- <-;
      split_and!; try done; try (by left); apply upper_idem.
  - destruct (flag && negb (bool_decide (symbol = EmptyString))) eqn:Hc;
      injection H as <- <-; split_and!; try done; try by left.
    apply andb_true_iff in Hc as [_ Hc]. apply negb_true_iff in Hc.
    by apply bool_decide_eq_false in Hc.
  - destruct (fetch_price_frame provider clock symbol m) as (Hd & Ht & _).
    destruct (fetch_price provider clock symbol m) as [[r|e] s1];
      injection H as <- <-; split_and!; try done; by left.
  - destruct (publish_store symbol r m) as [Ht Hd].
    destruct (publish smtp symbol r m) as [[u|e] s1]; simpl in Ht, Hd;
      injection H as <- <-.
    all: split; [first [done | apply Hpc] |]; split; [done |].
    all: destruct r as [[ts p]|]; [| by left].
    all: destruct (truthy p) eqn:Hp; [| by left].
    all: right; by exists symbol, {| timestamp := ts; price := p |}.
  - destruct (sleep_frame clock interval m) as (Hd & Ht & _).
    destruct (sleep clock interval m) as [[u|e] s1];
      injection H as <- <-; split_and!; try done; by left.
  - injection H as <- <-. split_and!; try done. by left.
  - done.
Qed.

Lemma background_step_store tid x y :
  store_inv x -> bg_step tid x = Some y -> store_inv y.
Proof.
  intros (Ht & Hd & Hp) H.
  apply background_step_inv_eq in H as (pc & pc' & m & Hpc & Hs & ->).
  pose proof (Forall_lookup_1 _ _ _ _ Hp Hpc) as Hok.
  destruct (thread_step_store pc (running x) (self x) pc' m Hs Hok)
    as (Hok' & Hth & Hdata).
  split; [| split]; simpl.
  - intros sym th. rewrite Hth. apply Ht.
  - destruct Hdata as [-> | (sym & pt & Hsym & Hpt & ->)]; [done |].
    intros sym' h Hl. unfold append_point in Hl.
    destruct (decide (sym = sym')) as [<- | Hneq].
    + rewrite lookup_insert_eq in Hl. injection Hl as <-.
      split; [done |]. apply history_ok_append; [| done].
      destruct (data (self x) !! sym) as [h|] eqn:Hh; [| by left].
      right. by apply (Hd sym).
    + rewrite lookup_insert_ne in Hl by done. by apply Hd.
  - by apply Forall_insert.
Qed.

Lemma run_store_inv acts x y : store_inv x -> sys_run acts x = Some y -> store_inv y.
Proof.
  revert x. induction acts as [|a acts IH]; intros x Hx H; simpl in H.
  - by injection H as <-.
  - destruct (sys_step a x) as [x'|] eqn:Hs; [| done]. simpl in H.
    eapply IH; [| done].
    destruct a; simpl in Hs;
      eauto using event_step_store, handler_step_store, background_step_store.
Qed.


(** Property X9.  In every state the program reaches, every stored pair of
    thresholds is filed under a symbol that is not empty and in upper
    case, and it passes the test of line 253: no stored pair has both
    bounds other than zero with [upper <= lower]. *)
Theorem reachable_thresholds_are_ordered (acts : list Action) (x : App)
    (sym : string) (th : Thresholds) (u l : Q) :
  sys_run acts initial = Some x ->
  thresholds (self x) !! sym = Some th ->
  th_upper th = Some u -> th_lower th = Some l ->
  ¬ (u == 0)%Q -> ¬ (l == 0)%Q ->
  sym ≠ EmptyString ∧ upper sym = sym ∧ ¬ (u <= l)%Q.
Proof.
  intros Hrun Hl Hu Hlo Hu0 Hl0.
  destruct (run_store_inv acts initial x store_inv_initial Hrun) as (Ht & _).
  destruct (Ht sym th Hl) as ([Hne Hup] & Hok).
  split_and!; try done.
  unfold pair_ok in Hok. rewrite Hu, Hlo in Hok. simpl in Hok.
  apply truthy_iff in Hu0, Hl0. rewrite Hu0, Hl0 in Hok. simpl in Hok.
  intros Hle. apply Qle_bool_iff in Hle. congruence.
Qed.

(** Property X10.  In every state the program reaches, a price crosses at most one of the
    two thresholds of a symbol: a cycle raises at most one alert. *)
Theorem at_most_one_alert_per_cycle (acts : list Action) (x : App)
    (sym : string) (p : Q) :
  sys_run acts initial = Some x ->
  (length (crossings sym p (thresholds (self x) !! sym)) <= 1)%nat.
Proof.
  intros Hrun.
  destruct (run_store_inv acts initial x store_inv_initial Hrun) as (Ht & _).
  unfold crossings. rewrite length_app.
  destruct (fires upper_kind p _) eqn:Hfu; destruct (fires lower_kind p _) eqn:Hfl;
    simpl; try lia.
  apply fires_iff in Hfu as (u & Hu & Hu0 & Hup).
  apply fires_iff in Hfl as (l & Hlo & Hl0 & Hlp).
  destruct (thresholds (self x) !! sym) as [th|] eqn:Hth; [| done].
  simpl in Hu, Hlo. destruct (Ht sym th Hth) as (_ & Hok).
  unfold pair_ok in Hok. rewrite Hu, Hlo in Hok. simpl in Hok.
  apply truthy_iff in Hu0, Hl0. rewrite Hu0, Hl0 in Hok. simpl in Hok.
  assert (u <= l)%Q as Hle by (apply Qlt_le_weak; eapply Qlt_trans; eassumption).
  apply Qle_bool_iff in Hle. congruence.
Qed.

End Store.

(** ** More on the life cycle *)

Section Sessions.

Variable py_float : string -> option Q.
Variable py_int : string -> option Z.
Variable provider : string -> nat -> Response.
Variable smtp : nat -> SmtpOutcome.
Variable clock : Z -> option exn.

Local Abbreviation sys_step := (step py_float py_int provider smtp clock).
Local Abbreviation sys_run := (run py_float py_int provider smtp clock).
Local Abbreviation bg_step := (background_step py_int provider smtp clock).
Local Abbreviation th_step := (thread_step py_int provider smtp clock).
Local Abbreviation ev_step := (event_step py_float).

(** *** After the window is closed *)

Lemma join_all_finished x y k :
  lifecycle_inv x -> handler x = Stop273 k -> handler_step x = Some y ->
  all_finished y.
Proof.
  intros [Hlive _] Hh H. unfold handler_step in H. rewrite Hh in H.
  assert (y = with_handler (resume k) x
          ∧ ∀ tid, thread x = Some tid -> threads x !! tid = Some Finished)
    as [-> Hjoin].
  { destruct (thread x) as [tid|]; [| by injection H as <-].
    destruct (threads x !! tid) as [[] |] eqn:Hl; try done.
    injection H as <-. split; [done |]. by intros ? [= <-]. }
  apply Forall_lookup_2. intros i pc Hi. simpl in Hi.
  destruct (is_live pc) eqn:Hpc; [| done].
  pose proof (Hlive i pc Hi Hpc) as Ht.
  rewrite (Hjoin i Ht) in Hi. by injection Hi as <-.
Qed.

Lemma step_closing_inv a x y : closing_inv x -> sys_step a x = Some y -> closing_inv y.
Proof.
  intros [Hinv Hc] Hs. split; [by eapply step_inv |].
  intros Hd.
  assert (ev_step a x = Some y -> all_finished y) as Hev.
  { intros He. unfold event_step in He. destruct (handler x) eqn:Hh; try done.
    destruct a; try done; try (injection He as <-; simpl in Hd; congruence).
    destruct (validate_entries py_float (self x)) as [[[[[sym up] lo]|]|e] m];
      injection He as <-; simpl in Hd; congruence. }
  destruct a; simpl in Hs; try by apply Hev.
  - destruct (handler x) eqn:Hh;
      try (unfold handler_step in Hs; rewrite Hh in Hs; try done;
           injection Hs as <-; simpl in Hd; congruence).
    + unfold handler_step in Hs. rewrite Hh in Hs.
      destruct (running x); injection Hs as <-; simpl in Hd; congruence.
    + by eapply join_all_finished.
  - apply background_step_inv_eq in Hs as (pc & pc' & m & Hpc & Hst & ->).
    simpl in Hd. apply thread_step_live in Hst.
    by rewrite (all_finished_lookup x tid pc (Hc Hd) Hpc) in Hst.
Qed.

Lemma run_closing_inv acts x y : closing_inv x -> sys_run acts x = Some y -> closing_inv y.
Proof.
  revert x. induction acts as [|a acts IH]; intros x Hx H; simpl in H.
  - by injection H as <-.
  - destruct (sys_step a x) as [x'|] eqn:Hs; [| done]. simpl in H.
    eapply IH; [| done]. by eapply step_closing_inv.
Qed.

(** Property X12.  After [on_closing] has run, that is once [stop_monitoring] has
    returned to it and the window is destroyed, every thread has finished
    and nothing moves any more: no event is handled and no thread takes a
    step. *)
Theorem closed_window_is_quiescent (acts : list Action) (x : App)
    (a : Action) :
  sys_run acts initial = Some x ->
  handler x = Destroyed ->
  all_finished x ∧ sys_step a x = None.
Proof.
  intros Hrun Hd.
  destruct (run_closing_inv acts initial x) as [_ Hc]; [| done |].
  { split; [apply lifecycle_inv_initial | done]. }
  specialize (Hc Hd). split; [done |].
  destruct a; simpl; try (unfold event_step; by rewrite Hd).
  - unfold handler_step. by rewrite Hd.
  - unfold background_step.
    destruct (threads x !! tid) as [pc|] eqn:Hpc; [| done].
    pose proof (all_finished_lookup x tid pc Hc Hpc). by destruct pc.
Qed.

(** *** A thread outlives the flag only during the join *)

Lemma step_joined_inv a x y : joined_inv x -> sys_step a x = Some y -> joined_inv y.
Proof.
  intros [Hc Hj] Hs. split; [by eapply step_closing_inv |].
  intros k Hk Hr. destruct Hc as [[Hlive Hq] _].
  assert (ev_step a x = Some y -> all_finished y) as Hev.
  { intros He. unfold event_step in He. destruct (handler x) eqn:Hh; try done.
    destruct a; try done;
      try (injection He as <-; simpl in Hk, Hr |- *; first [congruence | by apply Hq]).
    destruct (validate_entries py_float (self x)) as [[[[[sym up] lo]|]|e] m];
      injection He as <-; simpl in Hk; congruence. }
  destruct a; simpl in Hs; try by apply Hev.
  - unfold handler_step in Hs. destruct (handler x) eqn:Hh; try done.
    + destruct (running x) eqn:Hrx; injection Hs as <-; simpl in Hk, Hr;
        congruence.
    + injection Hs as <-. simpl in Hk. congruence.
    + injection Hs as <-. simpl in Hk. congruence.
    + destruct (thread x) as [tid|].
      * destruct (threads x !! tid) as [[] |]; try done.
        injection Hs as <-. simpl in Hk. destruct k0; simpl in Hk; congruence.
      * injection Hs as <-. simpl in Hk. destruct k0; simpl in Hk; congruence.
  - apply background_step_inv_eq in Hs as (pc & pc' & m & Hpc & Hst & ->).
    simpl in Hk, Hr. apply thread_step_live in Hst.
    by rewrite (all_finished_lookup x tid pc (Hj k Hk Hr) Hpc) in Hst.
Qed.

Lemma run_joined_inv acts x y : joined_inv x -> sys_run acts x = Some y -> joined_inv y.
Proof.
  revert x. induction acts as [|a acts IH]; intros x Hx H; simpl in H.
  - by injection H as <-.
  - destruct (sys_step a x) as [x'|] eqn:Hs; [| done]. simpl in H.
    eapply IH; [| done]. by eapply step_joined_inv.
Qed.

(** Property X11.  In every state the program reaches, a thread that has
    not finished while the flag is down is the thread [self.thread] names,
    and the event thread is inside [stop_monitoring], past line 272, at the
    join: in no other state does a thread outlive the flag. *)
Theorem live_thread_with_flag_down_is_joined (acts : list Action) (x : App)
    (tid : nat) (pc : ThreadPc) :
  sys_run acts initial = Some x ->
  running x = false ->
  threads x !! tid = Some pc ->
  is_live pc = true ->
  thread x = Some tid ∧ ∃ k, handler x = Stop273 k.
Proof.
  intros Hrun Hr Hpc Hl.
  destruct (run_joined_inv acts initial x) as [[[Hlive Hq] Hd] Hj]; [| done |].
  { split; [split; [apply lifecycle_inv_initial | done] | done]. }
  split; [by eapply Hlive |].
  assert (¬ all_finished x) as Hnot.
  { intros Hall. by rewrite (all_finished_lookup x tid pc Hall Hpc) in Hl. }
  destruct (handler x) eqn:Hh; try (by destruct Hnot; auto).
  - destruct Hnot. by eapply Hj.
  - by eexists.
Qed.

(** *** Only the threads write what is shown *)

(** Property X13.  The handlers of the buttons, of the entries and of the window never
    touch the price histories, the list of alerts, the log, the status
    text, the chart or the outbox: stopping and starting again keeps the
    history and the alerts collected so far. *)
Theorem handlers_keep_the_history (a : Action) (x y : App) :
  is_background a = false ->
  sys_step a x = Some y ->
  data (self y) = data (self x)
  ∧ alerts_list (self y) = alerts_list (self x)
  ∧ logger (self y) = logger (self x)
  ∧ status_var (self y) = status_var (self x)
  ∧ chart (self y) = chart (self x)
  ∧ outbox (self y) = outbox (self x).
Proof.
  intros Hfg Hs. destruct a; simpl in Hs.
  - unfold event_step in Hs. destruct (handler x); try done.
    by injection Hs as <-.
  - unfold event_step in Hs. destruct (handler x); try done.
    by injection Hs as <-.
  - unfold event_step in Hs. destruct (handler x); try done.
    pose proof (validate_entries_cases py_float (self x)) as Hv. cbn zeta in Hv.
    destruct (validate_entries py_float (self x)) as [[[[[sym up] lo]|]|e] m];
      simpl in Hv; injection Hs as <-; [| | done].
    + by destruct Hv as (-> & _).
    + by destruct Hv as [text ->].
  - unfold event_step in Hs. destruct (handler x); try done.
    by injection Hs as <-.
  - unfold event_step in Hs. destruct (handler x); try done.
    by injection Hs as <-.
  - unfold handler_step in Hs. destruct (handler x); try done.
    + by destruct (running x); injection Hs as <-.
    + by injection Hs as <-.
    + by injection Hs as <-.
    + destruct (thread x) as [tid|]; [| by injection Hs as <-].
      destruct (threads x !! tid) as [[] |]; try done. by injection Hs as <-.
  - done.
Qed.

End Sessions.

(** ** Starting, and starting again *)

Section Starting.

Variable py_float : string -> option Q.
Variable py_int : string -> option Z.
Variable provider : string -> nat -> Response.
Variable smtp : nat -> SmtpOutcome.
Variable clock : Z -> option exn.

Local Abbreviation sys_step := (step py_float py_int provider smtp clock).
Local Abbreviation sys_run := (run py_float py_int provider smtp clock).
Local Abbreviation th_step := (thread_step py_int provider smtp clock).

Lemma accepted_start x sym up lo :
  handler x = InMainloop ->
  fst (validate_entries py_float (self x)) = Ok (Some (sym, up, lo)) ->
  sys_step ClickStart x
  = Some (with_handler Start261
            (with_self
               (set_thresholds
                  <[sym := {| th_upper := up; th_lower := lo |}]> (self x))
               x)).
Proof.
  intros Hh Hv. simpl. unfold event_step. rewrite Hh.
  pose proof (validate_entries_cases py_float (self x)) as Hc. cbn zeta in Hc.
  destruct (validate_entries py_float (self x)) as [res m]. simpl in Hv.
  subst res. simpl in Hc. by destruct Hc as (-> & _).
Qed.

(** Property X14.  A start that passes validation while the flag is down stores the
    thresholds of the symbol, raises the flag, starts exactly one thread,
    which [self.thread] names, disables the start button and enables the
    stop button; it shows no dialog and leaves the histories alone. *)
Theorem start_from_idle (x : App) (sym : string) (up lo : option Q) :
  handler x = InMainloop ->
  running x = false ->
  fst (validate_entries py_float (self x)) = Ok (Some (sym, up, lo)) ->
  ∃ y, sys_run [ClickStart; Handler; Handler] x = Some y
       ∧ handler y = InMainloop
       ∧ running y = true
       ∧ threads y = threads x ++ [AtEntry]
       ∧ thread y = Some (length (threads x))
       ∧ thresholds (self y)
         = <[sym := {| th_upper := up; th_lower := lo |}]> (thresholds (self x))
       ∧ start_button (self y) = false ∧ stop_button (self y) = true
       ∧ dialogs (self y) = dialogs (self x)
       ∧ data (self y) = data (self x).
Proof.
  intros Hh Hr Hv. eexists. split.
  - cbn [run]. rewrite (accepted_start x sym up lo Hh Hv). cbn [mbind option_bind].
    simpl. unfold handler_step. simpl. rewrite Hr. simpl. reflexivity.
  - by split_and!.
Qed.

(** Property X15.  A start while the flag is up stores the new thresholds
    of the symbol first, with the flag still up and every thread as it
    was, and only then lowers the flag and waits in [join]: the bounds a
    thread of the previous session reads from then on are the new ones. *)
Theorem restart_stores_thresholds_first (x : App) (sym : string)
    (up lo : option Q) :
  handler x = InMainloop ->
  running x = true ->
  fst (validate_entries py_float (self x)) = Ok (Some (sym, up, lo)) ->
  ∃ y1 y,
    sys_step ClickStart x = Some y1
    ∧ running y1 = true
    ∧ threads y1 = threads x
    ∧ thresholds (self y1) !! sym
      = Some {| th_upper := up; th_lower := lo |}
    ∧ sys_run [Handler; Handler] y1 = Some y
    ∧ handler y = Stop273 FromStart
    ∧ running y = false
    ∧ threads y = threads x ∧ thread y = thread x
    ∧ self y = self y1
    ∧ data (self y) = data (self x)
    ∧ alerts_list (self y) = alerts_list (self x).
Proof.
  intros Hh Hr Hv.
  set (y1 := with_handler Start261
               (with_self
                  (set_thresholds
                     <[sym := {| th_upper := up; th_lower := lo |}]> (self x))
                  x)).
  exists y1,
    (with_handler (Stop273 FromStart)
       (with_running false (with_handler (Stop272 FromStart) y1))).
  split; [apply (accepted_start x sym up lo Hh Hv) |].
  simpl. rewrite lookup_insert_eq. split_and!; try done.
  unfold handler_step. simpl. by rewrite Hr.
Qed.

(** *** What a thread monitors is fixed when it starts *)

Lemma thread_step_params pc flag m pc' m' sym iv :
  th_step pc flag m = Some (pc', m') ->
  pc_params pc = Some (sym, iv) ∨ pc = AtExit ∨ pc = Finished ->
  pc_params pc' = Some (sym, iv) ∨ pc' = AtExit ∨ pc' = Finished.
Proof.
  intros H [Hp | [-> | ->]]; [| simpl in H; injection H as <- <-; auto | done].
  destruct pc; simpl in H, Hp; try done.
  - destruct (flag && _); injection H as <- <-; auto.
  - destruct (fetch_price provider clock symbol m) as [[r|e] s1];
      injection H as <- <-; auto.
  - destruct (publish smtp symbol r m) as [[u|e] s1];
      injection H as <- <-; auto.
  - destruct (sleep clock interval m) as [[u|e] s1];
      injection H as <- <-; auto.
Qed.

Lemma step_keeps_params a x y tid pc sym iv :
  sys_step a x = Some y ->
  threads x !! tid = Some pc ->
  pc_params pc = Some (sym, iv) ∨ pc = AtExit ∨ pc = Finished ->
  ∃ pc', threads y !! tid = Some pc'
         ∧ (pc_params pc' = Some (sym, iv) ∨ pc' = AtExit ∨ pc' = Finished).
Proof.
  intros Hs Hpc Hk.
  assert (event_step py_float a x = Some y ->
          ∃ pc', threads y !! tid = Some pc'
                 ∧ (pc_params pc' = Some (sym, iv) ∨ pc' = AtExit ∨ pc' = Finished))
    as Hev.
  { intros He. apply event_step_threads in He as [-> _]. by exists pc. }
  destruct a; simpl in Hs; try by apply Hev.
  - exists pc. split; [| done].
    apply handler_step_threads in Hs as [-> | ->]; [done |].
    by apply lookup_app_l_Some.
  - apply background_step_inv_eq in Hs as (pc0 & pc' & m & Hpc0 & Hst & ->).
    simpl. destruct (decide (tid0 = tid)) as [-> | Hne].
    + rewrite Hpc in Hpc0. injection Hpc0 as <-.
      exists pc'. split; [| by eapply thread_step_params].
      apply list_lookup_insert_eq. by eapply lookup_lt_Some.
    + exists pc. by rewrite list_lookup_insert_ne.
Qed.

(** Property X16.  Once a thread is in its loop, the symbol and the interval it works
    with never change, whatever is typed into the entries or pressed
    afterwards; the thread keeps them until it leaves the loop. *)
Theorem thread_parameters_are_fixed (acts : list Action) (x y : App)
    (tid : nat) (pc : ThreadPc) (sym : string) (iv : Z) :
  sys_run acts x = Some y ->
  threads x !! tid = Some pc ->
  pc_params pc = Some (sym, iv) ->
  ∃ pc', threads y !! tid = Some pc'
         ∧ (pc_params pc' = Some (sym, iv) ∨ pc' = AtExit ∨ pc' = Finished).
Proof.
  intros Hrun Hpc Hp.
  assert (pc_params pc = Some (sym, iv) ∨ pc = AtExit ∨ pc = Finished) as Hk
    by auto.
  clear Hp. revert x pc Hrun Hpc Hk.
  induction acts as [|a acts IH]; intros x pc Hrun Hpc Hk; simpl in Hrun.
  - injection Hrun as <-. by exists pc.
  - destruct (sys_step a x) as [x'|] eqn:Hs; [| done]. simpl in Hrun.
    destruct (step_keeps_params a x x' tid pc sym iv Hs Hpc Hk) as (pc1 & H1 & Hk1).
    by eapply IH.
Qed.

End Starting.

(** ** How a session ends *)

Section Endings.

Variable py_float : string -> option Q.
Variable py_int : string -> option Z.
Variable provider : string -> nat -> Response.
Variable smtp : nat -> SmtpOutcome.
Variable clock : Z -> option exn.

Local Abbreviation sys_step := (step py_float py_int provider smtp clock).
Local Abbreviation sys_run := (run py_float py_int provider smtp clock).
Local Abbreviation th_step := (thread_step py_int provider smtp clock).

(** Property X17.  When the text of the interval box is no integer, a start that passes
    validation still raises the flag and disables the start button, but
    the thread ends at its first step, on the exception of [int()]: the
    flag stays up, the buttons stay as for a running session and the
    status text is not touched. *)
Theorem bad_interval_ends_thread_silently (x : App) (sym : string)
    (up lo : option Q) :
  handler x = InMainloop ->
  running x = false ->
  fst (validate_entries py_float (self x)) = Ok (Some (sym, up, lo)) ->
  py_int (interval_var (entries (self x))) = None ->
  ∃ y, sys_run [ClickStart; Handler; Handler; Background (length (threads x))] x
       = Some y
       ∧ threads y = threads x ++ [Finished]
       ∧ running y = true
       ∧ handler y = InMainloop
       ∧ start_button (self y) = false ∧ stop_button (self y) = true
       ∧ status_var (self y) = status_var (self x)
       ∧ data (self y) = data (self x).
Proof.
  intros Hh Hr Hv Hi. eexists. split.
  - cbn [run].
    rewrite (accepted_start py_float py_int provider smtp clock x sym up lo Hh Hv).
    cbn [mbind option_bind]. simpl. unfold handler_step. simpl. rewrite Hr. simpl.
    unfold background_step. simpl.
    rewrite lookup_app_r, Nat.sub_diag by lia. simpl. rewrite Hi. simpl.
    reflexivity.
  - simpl. split_and!; try done.
    rewrite insert_app_r_alt, Nat.sub_diag by lia. done.
Qed.

End Endings.

(** ** The further properties at concrete inputs *)

Lemma update_data_stores_point_witness :
  let provider := scripted [RespTable [(3, 100%Q)]] in
  let r := update_data provider smtp_up steady_clock "AAPL" watched_monitor in
  let pt := {| timestamp := 3; price := 100%Q |} in
  fst r = Ok (Some 100%Q)
  ∧ data (snd r) !! "AAPL"
    = Some (tail 50 (default [] (data watched_monitor !! "AAPL") ++ [pt]))
  ∧ (default [] (data (snd r) !! "AAPL")) !! 0%nat ≠ None
  ∧ last (default [] (data (snd r) !! "AAPL")) = Some pt
  ∧ ∀ other, other ≠ "AAPL" ->
             data (snd r) !! other = data watched_monitor !! other.
Proof.
  apply (update_data_stores_point (scripted [RespTable [(3, 100%Q)]]) smtp_up
      steady_clock
           "AAPL" 3 100%Q watched_monitor).
  - reflexivity.
  - reflexivity.
Defined.

Lemma repeated_crossing_alerts_again_witness :
  let s1 := snd (process_quote smtp_up "AAPL" (Some (3, 100%Q)) watched_monitor) in
  let s2 := snd (process_quote smtp_up "AAPL" (Some (4, 100%Q)) s1) in
  let raised := crossings "AAPL" 100 (thresholds watched_monitor !! "AAPL") in
  alerts_list s1 = alerts_list watched_monitor ++ raised
  ∧ alerts_list s2 = alerts_list watched_monitor ++ raised ++ raised.
Proof.
  apply (repeated_crossing_alerts_again smtp_up "AAPL" 3 4 100%Q watched_monitor).
  reflexivity.
Defined.

Lemma saved_configuration_is_used_witness :
  ∃ y, step digits_float digits_int one_quote smtp_up steady_clock
         (SaveEmail example_email) initial = Some y
       ∧ email_config (self y) = Some example_email
       ∧ let r := send_email_alert smtp_up "AAPL" 100 upper_kind (self y) in
         let o := smtp_up (smtp_sessions (self initial)) in
         smtp_sessions (snd r) = S (smtp_sessions (self initial))
         ∧ outbox (snd r)
           = outbox (self initial)
             ++ (if handed_over o
                 then [mail_of example_email "AAPL" 100 upper_kind] else [])
         ∧ logger (snd r)
           = logger (self initial)
             ++ [match smtp_error o with
                 | Some e => (ERROR, EmailFailedMsg e)
                 | None => (INFO, EmailSentMsg "AAPL")
                 end].
Proof.
  apply (saved_configuration_is_used smtp_up digits_float digits_int one_quote
      steady_clock
           example_email "AAPL" 100%Q upper_kind initial).
  reflexivity.
Defined.

Lemma start_button_validates_witness :
  ∃ y, step digits_float digits_int one_quote smtp_up
      steady_clock ClickStart ready_to_start
       = Some y
       ∧ running y = running ready_to_start
       ∧ threads y = threads ready_to_start
       ∧ thread y = thread ready_to_start
       ∧ data (self y) = data (self ready_to_start)
       ∧ match handler y with
         | InMainloop => ∃ text, self y = showerror text (self ready_to_start)
         | Start261 =>
             ∃ sym th,
               self y = set_thresholds <[sym := th]> (self ready_to_start)
               ∧ symbol_ok sym ∧ pair_ok th
               ∧ sym = upper (symbol_entry (entries (self ready_to_start)))
         | _ => False
         end.
Proof.
  apply (start_button_validates digits_float digits_int one_quote smtp_up steady_clock
           ready_to_start).
  reflexivity.
Defined.


Lemma reachable_thresholds_are_ordered_witness :
  "AAPL" ≠ EmptyString ∧ upper "AAPL" = "AAPL" ∧ ¬ (90 <= 50)%Q.
Proof.
  apply (reachable_thresholds_are_ordered digits_float digits_int one_quote
           smtp_up steady_clock start_with_bounds started_with_bounds "AAPL"
           {| th_upper := Some 90%Q; th_lower := Some 50%Q |} 90 50).
  - vm_compute. reflexivity.
  - vm_compute. reflexivity.
  - reflexivity.
  - reflexivity.
  - vm_compute. discriminate.
  - vm_compute. discriminate.
Defined.

Lemma at_most_one_alert_per_cycle_witness :
  (length (crossings "AAPL" 150
             (thresholds (self started_with_bounds) !! "AAPL")) <= 1)%nat.
Proof.
  apply (at_most_one_alert_per_cycle digits_float digits_int one_quote smtp_up
      steady_clock
           start_with_bounds started_with_bounds "AAPL" 150%Q).
  vm_compute. reflexivity.
Defined.

Lemma closed_window_is_quiescent_witness :
  all_finished closed
  ∧ step digits_float digits_int one_quote smtp_up
      steady_clock ClickStart closed = None.
Proof.
  apply (closed_window_is_quiescent digits_float digits_int one_quote smtp_up
      steady_clock
           start_stop_close closed ClickStart).
  - vm_compute. reflexivity.
  - vm_compute. reflexivity.
Defined.

Lemma handlers_keep_the_history_witness :
  let x := with_self watched_monitor initial in
  let y := with_handler (Stop272 FromButton) x in
  data (self y) = data (self x)
  ∧ alerts_list (self y) = alerts_list (self x)
  ∧ logger (self y) = logger (self x)
  ∧ status_var (self y) = status_var (self x)
  ∧ chart (self y) = chart (self x)
  ∧ outbox (self y) = outbox (self x).
Proof.
  apply (handlers_keep_the_history digits_float digits_int one_quote smtp_up
      steady_clock
           ClickStop).
  - reflexivity.
  - reflexivity.
Defined.

Lemma start_from_idle_witness :
  ∃ y, run digits_float digits_int one_quote smtp_up steady_clock
         [ClickStart; Handler; Handler] ready_to_start = Some y
       ∧ handler y = InMainloop
       ∧ running y = true
       ∧ threads y = threads ready_to_start ++ [AtEntry]
       ∧ thread y = Some (length (threads ready_to_start))
       ∧ thresholds (self y)
         = <["AAPL" := {| th_upper := Some (inject_Z 90);
                          th_lower := Some (inject_Z 50) |}]>
             (thresholds (self ready_to_start))
       ∧ start_button (self y) = false ∧ stop_button (self y) = true
       ∧ dialogs (self y) = dialogs (self ready_to_start)
       ∧ data (self y) = data (self ready_to_start).
Proof.
  apply (start_from_idle digits_float digits_int one_quote smtp_up steady_clock
           ready_to_start "AAPL" (Some (inject_Z 90)) (Some (inject_Z 50))).
  - reflexivity.
  - reflexivity.
  - vm_compute. reflexivity.
Defined.

Lemma restart_stores_thresholds_first_witness :
  ∃ y1 y,
    step digits_float digits_int one_quote smtp_up
        steady_clock ClickStart mid_cycle = Some y1
    ∧ running y1 = true
    ∧ threads y1 = threads mid_cycle
    ∧ thresholds (self y1) !! "AAPL"
      = Some {| th_upper := Some (inject_Z 90);
                th_lower := Some (inject_Z 50) |}
    ∧ run digits_float digits_int one_quote smtp_up steady_clock [Handler; Handler] y1
      = Some y
    ∧ handler y = Stop273 FromStart
    ∧ running y = false
    ∧ threads y = threads mid_cycle ∧ thread y = thread mid_cycle
    ∧ self y = self y1
    ∧ data (self y) = data (self mid_cycle)
    ∧ alerts_list (self y) = alerts_list (self mid_cycle).
Proof.
  apply (restart_stores_thresholds_first digits_float digits_int one_quote
           smtp_up
               steady_clock mid_cycle "AAPL" (Some (inject_Z 90)) (Some (inject_Z 50))).
  - reflexivity.
  - reflexivity.
  - vm_compute. reflexivity.
Defined.

Lemma thread_parameters_are_fixed_witness :
  ∃ pc', threads
           (default initial
              (run digits_float digits_int one_quote smtp_up steady_clock
                 [UserTypes (typed "msft" EmptyString EmptyString "30");
                  Background 0; Background 0] in_cycle)) !! 0%nat = Some pc'
         ∧ (pc_params pc' = Some ("AAPL", 60)
            ∨ pc' = AtExit ∨ pc' = Finished).
Proof.
  apply (thread_parameters_are_fixed digits_float digits_int one_quote smtp_up
      steady_clock
           [UserTypes (typed "msft" EmptyString EmptyString "30");
            Background 0; Background 0]
           in_cycle _ 0 (InBody "AAPL" 60) "AAPL" 60).
  - vm_compute. reflexivity.
  - reflexivity.
  - reflexivity.
Defined.

Lemma bad_interval_ends_thread_silently_witness :
  ∃ y, run digits_float digits_int one_quote smtp_up steady_clock
         [ClickStart; Handler; Handler; Background (length (threads bad_interval))]
         bad_interval = Some y
       ∧ threads y = threads bad_interval ++ [Finished]
       ∧ running y = true
       ∧ handler y = InMainloop
       ∧ start_button (self y) = false ∧ stop_button (self y) = true
       ∧ status_var (self y) = status_var (self bad_interval)
       ∧ data (self y) = data (self bad_interval).
Proof.
  apply (bad_interval_ends_thread_silently digits_float digits_int one_quote
           smtp_up steady_clock bad_interval "AAPL" None None).
  - reflexivity.
  - reflexivity.
  - vm_compute. reflexivity.
  - vm_compute. reflexivity.
Defined.


Lemma live_thread_with_flag_down_is_joined_witness :
  thread waiting_in_join = Some 0%nat
  ∧ ∃ k, handler waiting_in_join = Stop273 k.
Proof.
  apply (live_thread_with_flag_down_is_joined digits_float digits_int one_quote
           smtp_up steady_clock (take 8 start_then_stop) waiting_in_join 0
           (InBody "AAPL" 60)).
  - vm_compute. reflexivity.
  - vm_compute. reflexivity.
  - vm_compute. reflexivity.
  - reflexivity.
Defined.
